(** * first_shot/main.py: request binding, handlers and response resolution

    A shallow embedding of the routes of [first_shot/main.py] that the
    specification makes statements about.  The handlers, the model classes,
    the parameter declarations and the two in-function stores are taken from
    the Python source.  The engine that the source delegates to (coercion and
    validation, parameter binding, response resolution, exception mapping,
    the background task queue) is not part of the repository's source file;
    every definition standing for it says so in its doc comment.

    Left out: the routes no statement below is about, and the two
    middlewares ([add_process_time_header], which reads the clock, and CORS),
    which add headers to a response and change neither status nor body. *)

From Stdlib Require Import ZArith Lia Bool Ascii String.
From Stdlib.Floats Require Import SpecFloat.
From stdpp Require Import base option list strings gmap.

Set Warnings "-register-all".
Local Open Scope string_scope.
Local Open Scope Z_scope.

(** ** Numbers

    Python compares an [int] with a [float] exactly, so comparison goes
    through an exact dyadic reading [m * 2^e] of both. *)

Module Num.

Inductive num :=
| NInt (n : Z)
| NFloat (f : spec_float).

Inductive xnum :=
| XNaN
| XInf (neg : bool)
| XFin (m e : Z).

Definition xnum_of (x : num) : xnum :=
  match x with
  | NInt n => XFin n 0
  | NFloat (S754_zero _) => XFin 0 0
  | NFloat (S754_infinity s) => XInf s
  | NFloat S754_nan => XNaN
  | NFloat (S754_finite s m e) => XFin (if s then Z.neg m else Z.pos m) e
  end.

Definition fin_compare (m1 e1 m2 e2 : Z) : comparison :=
  let e := Z.min e1 e2 in
  Z.compare (m1 * 2 ^ (e1 - e)) (m2 * 2 ^ (e2 - e)).

(** [None] is the unordered case (a NaN operand). *)
Definition compare (a b : num) : option comparison :=
  match xnum_of a, xnum_of b with
  | XNaN, _ | _, XNaN => None
  | XInf true, XInf true => Some Eq
  | XInf false, XInf false => Some Eq
  | XInf true, _ => Some Lt
  | XInf false, _ => Some Gt
  | _, XInf true => Some Gt
  | _, XInf false => Some Lt
  | XFin m1 e1, XFin m2 e2 => Some (fin_compare m1 e1 m2 e2)
  end.

Definition gtb (a b : num) : bool :=
  match compare a b with Some Gt => true | _ => false end.
Definition geb (a b : num) : bool :=
  match compare a b with Some Gt | Some Eq => true | _ => false end.
Definition ltb (a b : num) : bool :=
  match compare a b with Some Lt => true | _ => false end.
Definition leb (a b : num) : bool :=
  match compare a b with Some Lt | Some Eq => true | _ => false end.

(** binary64 *)
Definition prec : Z := 53.
Definition emax : Z := 1024.

(** [float(n)] for a Python [int]: round to nearest even. *)
Definition float_of_Z (n : Z) : spec_float := binary_normalize prec emax n 0 false.

(** The literal [10.5] = 21 * 2^-1. *)
Definition f10_5 : spec_float := Eval vm_compute in binary_normalize prec emax 21 (-1) false.
(** The literal [1e7]. *)
Definition f1e7 : spec_float := Eval vm_compute in float_of_Z 10000000.

Definition is_finite (f : spec_float) : bool :=
  match f with
  | S754_zero _ | S754_finite _ _ _ => true
  | _ => false
  end.

End Num.

(** ** Python data

    One type for the data the program handles: what [json.loads] yields for a
    body, the strings of a path, query or form, model instances, the dicts a
    handler returns.  A dict and a model instance are both an association
    list in insertion (field declaration) order. *)

Inductive value :=
| VNone
| VBool (b : bool)
| VInt (n : Z)
| VFloat (f : spec_float)
| VStr (s : string)
| VList (l : list value)
| VSet (s : gset string)
| VDict (kvs : list (string * value)).

(** [d.get(k)] on an association list: the first binding of [k]. *)
Fixpoint dict_get (k : string) (kvs : list (string * value)) : option value :=
  match kvs with
  | [] => None
  | (k', v) :: r => if String.eqb k k' then Some v else dict_get k r
  end.

Definition dict_keys (kvs : list (string * value)) : list string := map fst kvs.

Definition nl : string := String (Ascii.ascii_of_nat 10) "".

(** ** Schema registry

    The declarative reading of the pydantic classes and of the
    [Path]/[Query]/[Body]/[Form] annotations of the source. *)

Record constraints := Constraints {
  c_gt : option Num.num;
  c_ge : option Num.num;
  c_lt : option Num.num;
  c_le : option Num.num;
  c_min_length : option nat;
  c_max_length : option nat
}.

Definition unconstrained : constraints := Constraints None None None None None None.

(** A field is required exactly when it has no default. *)
Record field_of (T : Type) := Field {
  f_name : string;
  f_type : T;
  f_default : option value;
  f_cons : constraints
}.
Arguments Field {T} _ _ _ _.
Arguments f_name {T} _.
Arguments f_type {T} _.
Arguments f_default {T} _.
Arguments f_cons {T} _.

Inductive ftype :=
| TInt
| TFloat
| TStr
| TUrl
| TOpt (t : ftype)
| TList (t : ftype)
| TStrSet
| TModel (name : string) (fields : list (field_of ftype)).

Abbreviation field := (field_of ftype).

Definition model_fields (t : ftype) : list field :=
  match t with TModel _ fs => fs | _ => [] end.

Definition field_names (fs : list field) : list string := map f_name fs.

(** Class inheritance, as field-set composition: the parent's fields that the
    child does not redeclare, then the child's own. *)
Definition inherit (parent : ftype) (name : string) (own : list field) : ftype :=
  TModel name
    (List.filter (fun f => negb (existsb (String.eqb (f_name f)) (field_names own)))
                 (model_fields parent) ++ own)%list.

Definition required (n : string) (t : ftype) : field := Field n t None unconstrained.
Definition optional (n : string) (t : ftype) : field := Field n (TOpt t) (Some VNone) unconstrained.

Module Models.

(** [class Image(BaseModel)] *)
Definition Image : ftype :=
  TModel "Image" [ required "url" TUrl; required "name" TStr ].

(** [class BaseItem(BaseModel)] *)
Definition BaseItem : ftype :=
  TModel "BaseItem"
    [ Field "description" (TOpt TStr) (Some VNone)
        (Constraints None None None None None (Some 300%nat));
      optional "type" TStr ].

(** [class CarItem(BaseItem)] *)
Definition CarItem : ftype :=
  inherit BaseItem "CarItem" [ Field "type" TStr (Some (VStr "car")) unconstrained ].

(** [class PlaneItem(BaseItem)] *)
Definition PlaneItem : ftype :=
  inherit BaseItem "PlaneItem"
    [ Field "type" TStr (Some (VStr "plane")) unconstrained; required "size" TInt ].

(** [price: float = Field(gt=0, ...)] *)
Definition Item_price : field :=
  Field "price" TFloat None (Constraints (Some (Num.NInt 0)) None None None None None).

(** [class Item(BaseItem)] *)
Definition Item : ftype :=
  inherit BaseItem "Item"
    [ required "name" TStr;
      Item_price;
      optional "tax" TFloat;
      optional "tags" TStrSet;
      optional "images" (TList Image) ].

(** [class Offer(BaseModel)] *)
Definition Offer : ftype :=
  TModel "Offer"
    [ required "name" TStr;
      optional "description" TStr;
      required "price" TFloat;
      required "items" (TList Item) ].

(** [class BaseUser(BaseModel)] *)
Definition BaseUser : ftype :=
  TModel "BaseUser" [ required "username" TStr; optional "full_name" TStr ].

(** [class UserIn(BaseUser)] *)
Definition UserIn : ftype :=
  inherit BaseUser "UserIn" [ required "password" TStr ].

End Models.

(** ** Coercion and validation engine *)

(** Modelled from the spec: the conversion of a numeric string to an [int]
    or a [float], "with overflow/format check".  It is the host runtime's;
    the engine is stated for any such conversion. *)
Class HostText := {
  int_of_text : string -> option Z;
  float_of_text : string -> option spec_float
}.

Inductive ckind :=
| Missing
| TypeError
| GreaterThan
| GreaterThanEqual
| LessThan
| LessThanEqual
| TooShort
| TooLong.

Inductive seg :=
| SKey (k : string)
| SIdx (i : nat).

(** A constraint violation inside one field: where below the field, which
    constraint, and the offending value. *)
Record issue := Issue {
  i_path : list seg;
  i_kind : ckind;
  i_input : value
}.

Definition result := (value + list issue)%type.

Definition under (s : seg) (r : result) : result :=
  match r with
  | inl v => inl v
  | inr es => inr (map (fun e => Issue (s :: i_path e) (i_kind e) (i_input e)) es)
  end.

Definition issues (r : result) : list issue :=
  match r with inl _ => [] | inr es => es end.

Definition is_ok (r : result) : bool :=
  match r with inl _ => true | inr _ => false end.

Definition num_of (v : value) : option Num.num :=
  match v with
  | VInt n => Some (Num.NInt n)
  | VFloat f => Some (Num.NFloat f)
  | _ => None
  end.

Definition len_of (v : value) : option nat :=
  match v with
  | VStr s => Some (String.length s)
  | VList l => Some (length l)
  | VSet s => Some (size s)
  | _ => None
  end.

Definition violated {A B} (bound : option A) (x : option B) (holds : B -> A -> bool)
    (k : ckind) : list ckind :=
  match bound, x with
  | Some b, Some y => if holds y b then [] else [k]
  | _, _ => []
  end.

(** Modelled from the spec: the constraint checks of section 4.1, in the order
    range (gt, ge, lt, le) then length (min, max); every violated constraint is
    collected.  The bounds are strict or inclusive exactly as declared. *)
Definition violations (c : constraints) (v : value) : list ckind :=
  (violated (c_gt c) (num_of v) Num.gtb GreaterThan ++
   violated (c_ge c) (num_of v) Num.geb GreaterThanEqual ++
   violated (c_lt c) (num_of v) Num.ltb LessThan ++
   violated (c_le c) (num_of v) Num.leb LessThanEqual ++
   violated (c_min_length c) (len_of v) (fun n b => (b <=? n)%nat) TooShort ++
   violated (c_max_length c) (len_of v) (fun n b => (n <=? b)%nat) TooLong)%list.

Definition check (c : constraints) (raw v : value) : result :=
  match violations c v with
  | [] => inl v
  | ks => inr (map (fun k => Issue [] k raw) ks)
  end.

Definition type_error (raw : value) : result := inr [Issue [] TypeError raw].

Definition is_http_url (s : string) : bool :=
  String.prefix "http://" s || String.prefix "https://" s.

Definition as_str (v : value) : option string :=
  match v with VStr s => Some s | _ => None end.

(** All results when every one succeeded, else every issue found. *)
Fixpoint gather (rs : list result) : list value + list issue :=
  match rs with
  | [] => inl []
  | r :: rest =>
      match r, gather rest with
      | inl v, inl vs => inl (v :: vs)
      | inl _, inr es => inr es
      | inr es, inl _ => inr es
      | inr es, inr es' => inr (es ++ es')%list
      end
  end.

Fixpoint indexed {A} (i : nat) (l : list A) : list (nat * A) :=
  match l with
  | [] => []
  | x :: r => (i, x) :: indexed (S i) r
  end.

(** The integer a float stands for: it has no fraction and lies strictly
    between -2^63 and 2^63. *)
Definition int_of_float (f : spec_float) : option Z :=
  let fits (n : Z) := if (- 2 ^ 63 <? n) && (n <? 2 ^ 63) then Some n else None in
  match f with
  | S754_zero _ => Some 0
  | S754_finite s m e =>
      let sign (n : Z) := if s then - n else n in
      if 0 <=? e then fits (sign (Z.pos m * 2 ^ e))
      else if Z.pos m mod 2 ^ (- e) =? 0 then fits (sign (Z.pos m / 2 ^ (- e)))
      else None
  | _ => None
  end.

Section Engine.
Context {HT : HostText}.

(** An [int] is read from an integer, from a boolean, from a float without
    fraction and from numeric text. *)
Definition to_int (raw : value) : option Z :=
  match raw with
  | VInt n => Some n
  | VBool b => Some (if b then 1 else 0)
  | VFloat f => int_of_float f
  | VStr s => int_of_text s
  | _ => None
  end.

Definition finite (f : spec_float) : option spec_float :=
  if Num.is_finite f then Some f else None.

Definition to_float (raw : value) : option spec_float :=
  match raw with
  | VFloat f => finite f
  | VInt n => finite (Num.float_of_Z n)
  | VStr s => f ← float_of_text s; finite f
  | _ => None
  end.

(** Modelled from the spec: [validate(fieldSpec, rawValue)] of section 4.1 on
    a value that is present.  Coercion first; constraints only after a
    successful coercion; sequences and nested models are validated element by
    element and field by field, and all issues are kept.  A model field that is
    absent takes its default, or is reported [Missing] when it has none; keys
    that the model does not declare are dropped.  [HttpUrl] is read as a string
    with an http or https scheme. *)
Fixpoint coerce (t : ftype) (c : constraints) (raw : value) {struct t} : result :=
  match t with
  | TInt =>
      match to_int raw with
      | Some n => check c raw (VInt n)
      | None => type_error raw
      end
  | TFloat =>
      match to_float raw with
      | Some f => check c raw (VFloat f)
      | None => type_error raw
      end
  | TStr =>
      match raw with
      | VStr s => check c raw (VStr s)
      | _ => type_error raw
      end
  | TUrl =>
      match raw with
      | VStr s => if is_http_url s then check c raw (VStr s) else type_error raw
      | _ => type_error raw
      end
  | TOpt t' =>
      match raw with
      | VNone => inl VNone
      | _ => coerce t' c raw
      end
  | TList t' =>
      match raw with
      | VList l =>
          match gather (map (fun ir => under (SIdx ir.1) (coerce t' unconstrained ir.2))
                            (indexed 0 l)) with
          | inl vs => check c raw (VList vs)
          | inr es => inr es
          end
      | _ => type_error raw
      end
  | TStrSet =>
      match raw with
      | VSet s => check c raw (VSet s)
      | VList l =>
          match mapM as_str l with
          | Some ss => check c raw (VSet (list_to_set ss))
          | None => type_error raw
          end
      | _ => type_error raw
      end
  | TModel _ fs =>
      match raw with
      | VDict kvs =>
          match gather
                  ((fix each (fs : list field) : list result :=
                      match fs with
                      | [] => []
                      | f :: rest =>
                          under (SKey (f_name f))
                            match dict_get (f_name f) kvs with
                            | Some r => coerce (f_type f) (f_cons f) r
                            | None =>
                                match f_default f with
                                | Some d => inl d
                                | None => inr [Issue [] Missing VNone]
                                end
                            end :: each rest
                      end) fs) with
          | inl vs => inl (VDict (zip (field_names fs) vs))
          | inr es => inr es
          end
      | _ => type_error raw
      end
  end.

(** [validate(fieldSpec, rawValue)], the raw value possibly absent. *)
Definition validate (f : field) (raw : option value) : result :=
  match raw with
  | Some r => coerce (f_type f) (f_cons f) r
  | None =>
      match f_default f with
      | Some d => inl d
      | None => inr [Issue [] Missing VNone]
      end
  end.

Definition validate_fields (fs : list field) (kvs : list (string * value)) : list result :=
  map (fun f => under (SKey (f_name f)) (validate f (dict_get (f_name f) kvs))) fs.

End Engine.

(** [jsonable_encoder]: the JSON-compatible form of a value; a set becomes an
    array.  The rendering of that tree as text is the transport's. *)
Fixpoint jsonable (v : value) : value :=
  match v with
  | VList l => VList (map jsonable l)
  | VSet s => VList (map VStr (elements s))
  | VDict kvs => VDict (map (fun kv => (kv.1, jsonable kv.2)) kvs)
  | _ => v
  end.

(** ** A decimal reading of numeric strings

    One [HostText]: an optional sign and decimal digits for an [int]; for a
    [float] also an optional fraction and an optional exponent, rounded to
    the nearest binary64, ties to even. *)

Module Decimal.

Definition digit (a : Ascii.ascii) : option Z :=
  let n := Z.of_nat (Ascii.nat_of_ascii a) in
  if (48 <=? n) && (n <=? 57) then Some (n - 48) else None.

Fixpoint take_digits (s : string) (acc : Z) (n : nat) : Z * nat * string :=
  match s with
  | String a r =>
      match digit a with
      | Some d => take_digits r (10 * acc + d) (S n)
      | None => (acc, n, s)
      end
  | EmptyString => (acc, n, s)
  end.

Definition sign (s : string) : bool * string :=
  match s with
  | String "-"%char r => (true, r)
  | String "+"%char r => (false, r)
  | _ => (false, s)
  end.

Definition parse_int (s : string) : option Z :=
  let '(neg, s1) := sign s in
  match take_digits s1 0 0 with
  | (n, S _, EmptyString) => Some (if neg then - n else n)
  | _ => None
  end.

(** [m * 10^e10], [m > 0], to the nearest binary64. *)
Definition round (neg : bool) (m e10 : Z) : spec_float :=
  if 0 <=? e10 then
    binary_normalize Num.prec Num.emax ((if neg then - m else m) * 10 ^ e10) 0 neg
  else
    let d := 10 ^ (- e10) in
    let s := Z.max 0 (64 + Z.log2 d - Z.log2 m) in
    let '(q, r) := Z.div_eucl (m * 2 ^ s) d in
    binary_round_aux Num.prec Num.emax neg q (- s) (new_location d r).

Definition parse_float (s : string) : option spec_float :=
  let '(neg, s1) := sign s in
  let '(ip, ni, s2) := take_digits s1 0 0 in
  let '(m, nf, s3) :=
    match s2 with
    | String "."%char r => take_digits r ip 0
    | _ => (ip, 0%nat, s2)
    end in
  if (ni + nf =? 0)%nat then None
  else
    ex ← match s3 with
         | EmptyString => Some 0
         | String "e"%char r | String "E"%char r => parse_int r
         | _ => None
         end;
    Some (if m =? 0 then S754_zero neg else round neg m (ex - Z.of_nat nf)).

Definition text : HostText :=
  {| int_of_text := parse_int; float_of_text := parse_float |}.

End Decimal.

(** ** Requests and parameter binding *)

Inductive location :=
| LPath
| LQuery
| LBody
| LForm.

(** What the transport hands over: method, the path segments after the leading
    slash (a trailing slash leaves an empty last segment), query pairs, form
    pairs and the parsed JSON body. *)
Record request := Request {
  method : string;
  path : list string;
  query : list (string * string);
  form : list (string * string);
  body : option value
}.

(** One declared parameter of a route. *)
Record param := Param {
  p_loc : location;
  p_alias : option string;
  p_embed : bool;
  p_field : field
}.

Definition p_name (p : param) : string := f_name (p_field p).
Definition wire_name (p : param) : string := default (p_name p) (p_alias p).

Record violation := Violation {
  v_loc : location;
  v_field : string;
  v_path : list seg;
  v_kind : ckind;
  v_input : value
}.

Definition values_of (k : string) (kvs : list (string * string)) : list string :=
  map snd (List.filter (fun kv => String.eqb k kv.1) kvs).

Fixpoint is_sequence (t : ftype) : bool :=
  match t with
  | TList _ | TStrSet => true
  | TOpt t' => is_sequence t'
  | _ => false
  end.

(** A key given several times: a sequence field takes every value in order, a
    scalar field the last one. *)
Definition multi (t : ftype) (vs : list string) : option value :=
  if is_sequence t then
    match vs with
    | [] => None
    | _ => Some (VList (map VStr vs))
    end
  else VStr <$> last vs.

(** A form field: as [multi], except that an empty value of a scalar field
    counts as absent. *)
Definition form_value (t : ftype) (vs : list string) : option value :=
  if is_sequence t then multi t vs
  else
    match last vs with
    | Some s => if String.eqb s "" then None else Some (VStr s)
    | None => None
    end.

Definition body_params (ps : list param) : list param :=
  List.filter (fun p => match p_loc p with LBody => true | _ => false end) ps.

(** Modelled from the spec: where section 4.2 takes a parameter's raw value,
    by source location, then wire alias.  A body that declares one parameter
    without [embed] is that parameter; otherwise each body parameter is read
    from its own key of the root object. *)
Definition raw_of (ps : list param) (pp : list (string * string)) (req : request)
    (p : param) : option value :=
  match p_loc p with
  | LPath => VStr <$> last (values_of (wire_name p) pp)
  | LQuery => multi (f_type (p_field p)) (values_of (wire_name p) (query req))
  | LForm => form_value (f_type (p_field p)) (values_of (wire_name p) (form req))
  | LBody =>
      if (length (body_params ps) =? 1)%nat && negb (p_embed p) then body req
      else
        match body req with
        | Some (VDict kvs) => dict_get (wire_name p) kvs
        | _ => None
        end
  end.

Definition locate (p : param) (e : issue) : violation :=
  Violation (p_loc p) (p_name p) (i_path e) (i_kind e) (i_input e).

Section Binder.
Context {HT : HostText}.

Definition validate_param (ps : list param) (pp : list (string * string))
    (req : request) (p : param) : result :=
  validate (p_field p) (raw_of ps pp req p).

Definition param_violations (ps : list param) (pp : list (string * string))
    (req : request) (p : param) : list violation :=
  map (locate p) (issues (validate_param ps pp req p)).

(** Modelled from the spec: [bind(routeSpec, request)] of section 4.2.  Every
    parameter is validated; the violations of all of them are concatenated in
    declaration order; the typed arguments exist only when there is none. *)
Definition bind (ps : list param) (pp : list (string * string)) (req : request)
    : list (string * value) + list violation :=
  match flat_map (param_violations ps pp req) ps with
  | [] =>
      inl (flat_map (fun p => match validate_param ps pp req p with
                              | inl v => [(p_name p, v)]
                              | inr _ => []
                              end) ps)
  | vs => inr vs
  end.

End Binder.

(** ** Handler effects

    A handler runs on the process state it can touch: what it printed, the
    content of [log.txt], and the request's [BackgroundTasks] list.  It
    returns a value or raises. *)

Inductive task :=
| WriteLog (message : string).

Inductive exn :=
| HTTPException (status_code : Z) (detail : string) (headers : list (string * string))
| UnicornException (name : string)
| KeyError (key : string).

Record world := World {
  stdout : list value;
  log_txt : string
}.

Record ctx := Ctx {
  c_world : world;
  background_tasks : list task
}.

Definition M (A : Type) : Type := ctx -> ctx * (A + exn).

Definition ret {A} (x : A) : M A := fun c => (c, inl x).
Definition raise {A} (e : exn) : M A := fun c => (c, inr e).
Definition bindM {A B} (m : M A) (k : A -> M B) : M B :=
  fun c => match m c with
           | (c', inl x) => k x c'
           | (c', inr e) => (c', inr e)
           end.

#[global] Instance M_ret : MRet M := @ret.
#[global] Instance M_bind : MBind M := fun A B k m => bindM m k.

(** [print(v)] *)
Definition print (v : value) : M unit :=
  fun c => (Ctx (World (stdout (c_world c) ++ [v]) (log_txt (c_world c)))
                (background_tasks c), inl tt).

(** [background_tasks.add_task(...)] *)
Definition add_task (t : task) : M unit :=
  fun c => (Ctx (c_world c) (background_tasks c ++ [t]), inl tt).

(** [write_log]: append the message to log.txt. *)
Definition write_log (message : string) (w : world) : world :=
  World (stdout w) (log_txt w ++ message).

Definition run_task (t : task) (w : world) : world :=
  match t with WriteLog message => write_log message w end.

(** Modelled from the spec: the queue of section 4.6 is drained in enqueue
    order once the response is final. *)
Definition drain (ts : list task) (w : world) : world :=
  fold_left (fun w t => run_task t w) ts w.

(** Python truthiness of the values a parameter can hold. *)
Definition truthy (v : value) : bool :=
  match v with
  | VNone => false
  | VBool b => b
  | VInt n => negb (n =? 0)
  | VFloat f => match f with S754_zero _ => false | _ => true end
  | VStr s => negb (String.eqb s "")
  | VList l => match l with [] => false | _ => true end
  | VSet s => negb (bool_decide (s = ∅))
  | VDict kvs => match kvs with [] => false | _ => true end
  end.

(** How an f-string renders a [str] or [None], the values of the two
    parameters that main.py interpolates. *)
Definition fmt (v : value) : string :=
  match v with
  | VStr s => s
  | VNone => "None"
  | _ => ""
  end.

Definition kwargs := list (string * value).
Definition arg (k : string) (a : kwargs) : value := default VNone (dict_get k a).
(** An argument declared [str]. *)
Definition str_arg (k : string) (a : kwargs) : string :=
  match arg k a with VStr s => s | _ => "" end.

(** ** Handlers of main.py *)

(** [Item(name=..., price=...)]: the unset fields take their defaults. *)
Definition Item_ (name : string) (price : spec_float) : value :=
  VDict [ ("description", VNone); ("type", VNone); ("name", VStr name);
          ("price", VFloat price); ("tax", VNone); ("tags", VNone);
          ("images", VNone) ].

(** [@app.get("/items/{item_id}")] *)
Definition read_item (a : kwargs) : M value :=
  let info := VDict [ ("item_id", arg "item_id" a); ("q", arg "q" a);
                      ("size", arg "size" a); ("importance", arg "importance" a) ] in
  print info;;
  mret (VList [ Item_ "Portal Gun" (Num.float_of_Z 42);
                Item_ "Plumbus" (Num.float_of_Z 32) ]).

(** The two records of the dict [items] of the travel handler. *)
Definition car_record : value :=
  VDict [ ("description", VStr "All my friends drive a low rider");
          ("type", VStr "car") ].

Definition plane_record : value :=
  VDict [ ("description", VStr "Music is my aeroplane, it's my aeroplane");
          ("type", VStr "plane");
          ("size", VInt 5) ].

Definition items : gmap string value :=
  {[ "item1" := car_record; "item2" := plane_record ]}.

(** [@app.get("/travel_items/{item_id}")]; the source names this function
    [read_item] as well.  [items[item_id]] raises [KeyError] on a key that
    is not there. *)
Definition read_item_travel (a : kwargs) : M value :=
  let item_id := str_arg "item_id" a in
  match items !! item_id with
  | Some v => mret v
  | None => raise (KeyError item_id)
  end.

(** [@app.post("/user/")] *)
Definition create_user (a : kwargs) : M value := mret (arg "user" a).

(** The dict [offers] of [read_offer]. *)
Definition offers : gmap string value := {[ "foo" := VStr "The Foo Wrestlers" ]}.

(** [@app.get("/offers/{offer_id}")] *)
Definition read_offer (a : kwargs) : M value :=
  let offer_id := str_arg "offer_id" a in
  match offers !! offer_id with
  | None =>
      raise (HTTPException 404 "Offer not found"
               [("X-Error", "There goes my error")])
  | Some v => mret v
  end.

(** [@app.post("/offers/")] *)
Definition create_offer (a : kwargs) : M value := mret (arg "offer" a).

(** [@app.post("/login/")] *)
Definition login (a : kwargs) : M value :=
  mret (VDict [ ("username", arg "username" a) ]).

(** [def get_query(background_tasks, q)] *)
Definition get_query (q : value) : M value :=
  if truthy q then
    let message := "found query: " ++ fmt q ++ nl in
    add_task (WriteLog message);;
    mret q
  else mret q.

(** [@app.post("/send-notification/{email}")], the body of the function. *)
Definition send_notification (email : value) (q : value) : M value :=
  let message := "message to " ++ fmt email ++ nl in
  add_task (WriteLog message);;
  mret (VDict [ ("message", VStr "Message sent") ]).

(** The endpoint with its dependency: [q] is [Depends(get_query)], resolved
    on the same [BackgroundTasks] object before the function body runs. *)
Definition send_notification_endpoint (a : kwargs) : M value :=
  q ← get_query (arg "q" a);
  send_notification (arg "email" a) q.

(** ** Response resolution and exception mapping *)

Inductive fatal :=
| ContractViolation
| UnhandledError.

(** What a request ends in: a body resolved from the handler's result, a
    validation failure, the response of a registered exception mapper, or a
    fatal server error with a generic body. *)
Inductive outcome :=
| Success (body : value)
| Invalid (vs : list violation)
| Mapped (status : Z) (headers : list (string * string)) (body : value)
| Fatal (k : fatal).

Definition status_of (o : outcome) : Z :=
  match o with
  | Success _ => 200
  | Invalid _ => 422
  | Mapped s _ _ => s
  | Fatal _ => 500
  end.

Definition headers_of (o : outcome) : list (string * string) :=
  match o with
  | Mapped _ h _ => h
  | _ => []
  end.

Inductive response_spec :=
| RNone
| RType (t : ftype)
| RUnion (discriminator : string) (variants : list ftype).

(** The discriminator value a variant stands for: the default of that field. *)
Definition variant_tag (d : string) (t : ftype) : option value :=
  f ← List.find (fun f => String.eqb (f_name f) d) (model_fields t);
  f_default f.

Definition tag_matches (d : string) (tag : value) (t : ftype) : bool :=
  match variant_tag d t, tag with
  | Some (VStr s), VStr s' => String.eqb s s'
  | _, _ => false
  end.

Definition select_variant (d : string) (variants : list ftype) (v : value) : option ftype :=
  match v with
  | VDict kvs =>
      tag ← dict_get d kvs;
      List.find (tag_matches d tag) variants
  | _ => None
  end.

Section Resolver.
Context {HT : HostText}.

Definition resolve_type (t : ftype) (v : value) : outcome :=
  match coerce t unconstrained v with
  | inl inst => Success (jsonable inst)
  | inr _ => Fatal ContractViolation
  end.

(** Modelled from the spec: [resolve(responseSpec, handlerResult)] of section
    4.3.  A single schema projects the result onto its fields and serializes;
    a tagged union reads the discriminator of the result, takes the variant
    with that tag and serializes through it; a result that fits no declared
    shape is a contract violation.  Without a response model the result is
    serialized as it is. *)
Definition resolve (spec : response_spec) (v : value) : outcome :=
  match spec with
  | RNone => Success (jsonable v)
  | RType t => resolve_type t v
  | RUnion d variants =>
      match select_variant d variants v with
      | Some t => resolve_type t v
      | None => Fatal ContractViolation
      end
  end.

End Resolver.

(** Modelled from the spec: the registry of section 4.5.  [HTTPException]
    carries its own status, detail and headers; [UnicornException] is
    registered by [unicorn_exception_handler] in main.py; [KeyError] has no
    mapper. *)
Definition exception_mapper (e : exn) : option (Z * list (string * string) * value) :=
  match e with
  | HTTPException s d h => Some (s, h, VDict [ ("detail", VStr d) ])
  | UnicornException n =>
      Some (418, [],
            VDict [ ("message",
                     VStr ("Oops! " ++ n ++ " did something. There goes a rainbow...")) ])
  | KeyError _ => None
  end.

Definition map_exception (e : exn) : outcome :=
  match exception_mapper e with
  | Some (s, h, b) => Mapped s h b
  | None => Fatal UnhandledError
  end.

(** ** Routes and the request pipeline *)

Inductive pseg :=
| Lit (s : string)
| Par (name : string).

Record route := Route {
  r_method : string;
  r_path : list pseg;
  r_params : list param;
  r_handler : kwargs -> M value;
  r_response : response_spec
}.

(** A named segment takes any non-empty path segment. *)
Fixpoint match_path (pat : list pseg) (p : list string) : option (list (string * string)) :=
  match pat, p with
  | [], [] => Some []
  | Lit s :: pat', x :: p' => if String.eqb s x then match_path pat' p' else None
  | Par n :: pat', x :: p' =>
      if String.eqb x "" then None
      else pp ← match_path pat' p'; Some ((n, x) :: pp)
  | _, _ => None
  end.

Definition matches (r : route) (req : request) : option (list (string * string)) :=
  if String.eqb (r_method r) (method req) then match_path (r_path r) (path req)
  else None.

Section Pipeline.
Context {HT : HostText}.

(** Binder, then handler, then resolver or exception mapper.  The result is
    the outcome, the tasks enqueued for after the response, and the process
    state when the response is final. *)
Definition run (r : route) (req : request) (w : world)
    : option (outcome * list task * world) :=
  pp ← matches r req;
  Some match bind (r_params r) pp req with
       | inr vs => (Invalid vs, [], w)
       | inl a =>
           match r_handler r a (Ctx w []) with
           | (c, inl v) => (resolve (r_response r) v, background_tasks c, c_world c)
           | (c, inr e) => (map_exception e, background_tasks c, c_world c)
           end
       end.

(** The response, and the process state once the queue has been drained. *)
Definition serve (r : route) (req : request) (w : world) : option (outcome * world) :=
  '(o, ts, w') ← run r req w;
  Some (o, drain ts w').

End Pipeline.

Definition path_param (n : string) (t : ftype) (c : constraints) : param :=
  Param LPath None false (Field n t None c).

Module Routes.

(** [item_id: Annotated[int, Path(ge=0, lt=1e7)]] *)
Definition item_id : param :=
  path_param "item_id" TInt
    (Constraints None (Some (Num.NInt 0)) (Some (Num.NFloat Num.f1e7)) None None None).

(** [q: Annotated[list[str] | None, Query(min_length=3, max_length=20)]] *)
Definition q : param :=
  Param LQuery None false
    (Field "q" (TOpt (TList TStr)) None
       (Constraints None None None None (Some 3%nat) (Some 20%nat))).

(** [size: Annotated[float, Query(gt=0, lt=10.5)]] *)
Definition size : param :=
  Param LQuery None false
    (Field "size" TFloat None
       (Constraints (Some (Num.NInt 0)) None (Some (Num.NFloat Num.f10_5)) None None None)).

(** [importance: Annotated[int, Body(ge=0)]] *)
Definition importance : param :=
  Param LBody None false
    (Field "importance" TInt None
       (Constraints None (Some (Num.NInt 0)) None None None None)).

Definition read_item : route :=
  Route "GET" [Lit "items"; Par "item_id"] [item_id; q; size; importance]
        read_item (RType (TList Models.Item)).

Definition read_item_travel : route :=
  Route "GET" [Lit "travel_items"; Par "item_id"]
        [path_param "item_id" TStr unconstrained]
        read_item_travel (RUnion "type" [Models.PlaneItem; Models.CarItem]).

Definition create_user : route :=
  Route "POST" [Lit "user"; Lit ""]
        [Param LBody None false (required "user" Models.UserIn)]
        create_user (RType Models.BaseUser).

Definition read_offer : route :=
  Route "GET" [Lit "offers"; Par "offer_id"]
        [path_param "offer_id" TStr unconstrained]
        read_offer (RType Models.Offer).

Definition create_offer : route :=
  Route "POST" [Lit "offers"; Lit ""]
        [Param LBody None false (required "offer" Models.Offer)]
        create_offer (RType Models.Offer).

(** [username: Annotated[str, Form(alias="user-name")]],
    [password: Annotated[str, Form()]] *)
Definition login : route :=
  Route "POST" [Lit "login"; Lit ""]
        [Param LForm (Some "user-name") false (required "username" TStr);
         Param LForm None false (required "password" TStr)]
        login RNone.

(** [email: str] from the path; [q: str | None = None] of [get_query] from
    the query. *)
Definition send_notification : route :=
  Route "POST" [Lit "send-notification"; Par "email"]
        [path_param "email" TStr unconstrained;
         Param LQuery None false (optional "q" TStr)]
        send_notification_endpoint RNone.

End Routes.

(** ** Induction over field types, through the fields of a model *)

Section FtypeInd.
Variable P : ftype -> Prop.
Hypothesis HInt : P TInt.
Hypothesis HFloat : P TFloat.
Hypothesis HStr : P TStr.
Hypothesis HUrl : P TUrl.
Hypothesis HOpt : forall t, P t -> P (TOpt t).
Hypothesis HList : forall t, P t -> P (TList t).
Hypothesis HStrSet : P TStrSet.
Hypothesis HModel : forall n fs, Forall (fun f => P (f_type f)) fs -> P (TModel n fs).

Fixpoint ftype_rect' (t : ftype) : P t :=
  match t with
  | TInt => HInt
  | TFloat => HFloat
  | TStr => HStr
  | TUrl => HUrl
  | TOpt t' => HOpt t' (ftype_rect' t')
  | TList t' => HList t' (ftype_rect' t')
  | TStrSet => HStrSet
  | TModel n fs =>
      HModel n fs
        ((fix all (fs : list field) : Forall (fun f => P (f_type f)) fs :=
            match fs with
            | [] => List.Forall_nil _
            | f :: rest => List.Forall_cons _ f rest (ftype_rect' (f_type f)) (all rest)
            end) fs)
  end.
End FtypeInd.

(** A failure that names at least one issue. *)
Definition sound (r : result) : Prop := forall es, r = inr es -> es <> [].

(** The parameters of a route that a request gets wrong. *)
Definition invalid_params {HT : HostText} (ps : list param)
    (pp : list (string * string)) (req : request) : list param :=
  List.filter (fun p => negb (is_ok (validate_param ps pp req p))) ps.

(** The value of the field [type] of a returned record. *)
Definition discriminator (v : value) : option value :=
  match v with VDict kvs => dict_get "type" kvs | _ => None end.

(** The keys of a successful response body. *)
Definition body_keys (o : outcome) : list string :=
  match o with Success (VDict kvs) => dict_keys kvs | _ => [] end.

(** The response of [read_offer] for an offer that is not there. *)
Definition not_found : outcome :=
  Mapped 404 [("X-Error", "There goes my error")]
         (VDict [("detail", VStr "Offer not found")]).

(** The body [send_notification] returns. *)
Definition sent : value := VDict [ ("message", VStr "Message sent") ].

(** ** Instances of a model

    What the round trip through the wire form needs of a schema. *)

(** A value without parts. *)
Definition atom (v : value) : bool :=
  match v with
  | VNone | VBool _ | VInt _ | VFloat _ | VStr _ => true
  | _ => false
  end.

(** A default is an atom that its own field accepts unchanged. *)
Definition default_ok `{HT : HostText} (f : field) : Prop :=
  match f_default f with
  | Some d => atom d = true /\ coerce (f_type f) (f_cons f) d = inl d
  | None => True
  end.

(** Field names are distinct and every default is accepted, at every depth. *)
Fixpoint stable `{HT : HostText} (t : ftype) : Prop :=
  match t with
  | TOpt t' | TList t' => stable t'
  | TModel _ fs =>
      NoDup (field_names fs)
      /\ (fix all (fs : list field) : Prop :=
            match fs with
            | [] => True
            | f :: rest => (stable (f_type f) /\ default_ok f) /\ all rest
            end) fs
  | _ => True
  end.

(** A TypedInstance of [t]: what validation against [t] produces. *)
Definition typed_instance `{HT : HostText} (t : ftype) (inst : value) : Prop :=
  exists raw, coerce t unconstrained raw = inl inst.

(** ** Fields of a request, at any depth *)

(** The model fields below a value that is validated against a type, each
    with its path, its declaration and its raw value. *)
Inductive subfield : ftype -> value -> list seg -> field -> option value -> Prop :=
| sub_field n fs kvs f :
    f ∈ fs ->
    subfield (TModel n fs) (VDict kvs) [SKey (f_name f)] f (dict_get (f_name f) kvs)
| sub_below n fs kvs f r path f' raw' :
    f ∈ fs -> dict_get (f_name f) kvs = Some r ->
    subfield (f_type f) r path f' raw' ->
    subfield (TModel n fs) (VDict kvs) (SKey (f_name f) :: path) f' raw'
| sub_item t l i r path f' raw' :
    l !! i = Some r ->
    subfield t r path f' raw' ->
    subfield (TList t) (VList l) (SIdx i :: path) f' raw'
| sub_some t r path f' raw' :
    r <> VNone ->
    subfield t r path f' raw' ->
    subfield (TOpt t) r path f' raw'.

(** The field of a request at [path] under parameter [p]: the parameter
    itself, or a model field below its raw value. *)
Definition field_at (ps : list param) (pp : list (string * string)) (req : request)
    (p : param) (path : list seg) (f : field) (raw : option value) : Prop :=
  (path = [] /\ f = p_field p /\ raw = raw_of ps pp req p)
  \/ (exists r, raw_of ps pp req p = Some r
                /\ subfield (f_type (p_field p)) r path f raw).

(** A field of the request that its own validation rejects. *)
Definition invalid_field `{HT : HostText} (ps : list param)
    (pp : list (string * string)) (req : request) (p : param) (path : list seg) : Prop :=
  p ∈ ps
  /\ exists f raw, field_at ps pp req p path f raw /\ is_ok (validate f raw) = false.

(** The route with another handler in place of its own. *)
Definition with_handler (r : route) (h : kwargs -> M value) : route :=
  Route (r_method r) (r_path r) (r_params r) h (r_response r).

(** ** Sample requests *)

Module Sample.

Definition w0 : world := World [] "".

Definition get (p : list string) (qs : list (string * string)) (b : option value)
    : request :=
  Request "GET" p qs [] b.

Definition post (p : list string) (qs fs : list (string * string)) (b : option value)
    : request :=
  Request "POST" p qs fs b.

(** GET /items/-1?size=0&q=a with body [-5] *)
Definition bad_item : request :=
  get ["items"; "-1"] [("size", "0"); ("q", "a")] (Some (VInt (-5))).

(** GET /items/5?size=0&q=a&q=b&q=c with body [3] *)
Definition zero_size : request :=
  get ["items"; "5"] [("size", "0"); ("q", "a"); ("q", "b"); ("q", "c")]
      (Some (VInt 3)).

(** POST /send-notification/a@b.c?q=x *)
Definition notify : request :=
  post ["send-notification"; "a@b.c"] [("q", "x")] [] None.

(** GET /offers/bar and GET /offers/foo *)
Definition offer_bar : request := get ["offers"; "bar"] [] None.
Definition offer_foo : request := get ["offers"; "foo"] [] None.

(** GET /travel_items/item3 *)
Definition travel_item3 : request := get ["travel_items"; "item3"] [] None.

(** POST /user/ with a username and a password *)
Definition new_user : request :=
  post ["user"; ""] [] []
       (Some (VDict [ ("username", VStr "rick"); ("password", VStr "wubba") ])).

(** Two POST /login/ forms that differ in the password only. *)
Definition login_a : request :=
  post ["login"; ""] [] [("user-name", "rick"); ("password", "wubba")] None.
Definition login_b : request :=
  post ["login"; ""] [] [("user-name", "rick"); ("password", "lubba")] None.

(** The same login with the password left empty. *)
Definition login_empty : request :=
  post ["login"; ""] [] [("user-name", "rick"); ("password", "")] None.

(** An offer with two items, as a parsed JSON body. *)
Definition echoed_offer : value :=
  VDict [ ("name", VStr "bundle");
          ("price", VFloat Num.f10_5);
          ("items",
           VList [ VDict [ ("name", VStr "Portal Gun"); ("price", VInt 42);
                           ("tags", VList [VStr "b"; VStr "a"; VStr "b"]) ];
                   VDict [ ("name", VStr "Plumbus"); ("price", VStr "32.0");
                           ("images",
                            VList [ VDict [ ("url", VStr "http://example.com/p.png");
                                            ("name", VStr "front") ] ]) ] ]) ].

(** The instance it binds to. *)
Definition offer_instance : value :=
  match coerce (HT:=Decimal.text) Models.Offer unconstrained echoed_offer with
  | inl v => v
  | inr _ => VNone
  end.

End Sample.

(** ** More of main.py: the remaining dict-returning handlers *)

(** [results.update({k: v})]: a key already there is rebound in place, a new
    key goes last. *)
Fixpoint dict_update (k : string) (v : value) (kvs : list (string * value))
    : list (string * value) :=
  match kvs with
  | [] => [(k, v)]
  | (k', v') :: r =>
      if String.eqb k k' then (k, v) :: r else (k', v') :: dict_update k v r
  end.

(** [@app.get("/items/")], the body of the function on its four arguments. *)
Definition read_items (a : kwargs) : M value :=
  let results :=
    [ ("items", VList [ VDict [("item_id", VStr "Foo")];
                        VDict [("item_id", VStr "Bar")] ]) ] in
  let results :=
    if truthy (arg "q" a) then dict_update "q" (arg "q" a) results else results in
  let results :=
    if truthy (arg "ads_id" a) then dict_update "ads_id" (arg "ads_id" a) results
    else results in
  let results :=
    if truthy (arg "user_agent" a)
    then dict_update "User-Agent" (arg "user_agent" a) results
    else results in
  let results :=
    if truthy (arg "x_token" a)
    then dict_update "X-Token values" (arg "x_token" a) results
    else results in
  mret (VDict results).

(** [@app.put("/items/{item_id}")] *)
Definition update_item (a : kwargs) : M value :=
  let results := VDict [ ("item_id", arg "item_id" a); ("item", arg "item" a) ] in
  mret results.

(** [@app.get("/unicorns/{name}")] *)
Definition read_unicorn (a : kwargs) : M value :=
  let name := str_arg "name" a in
  if String.eqb name "yolo" then raise (UnicornException name)
  else mret (VDict [ ("unicorn_name", VStr name) ]).

Module MoreRoutes.

(** [item_id: int], [item: Annotated[Item, Body(embed=True)]] *)
Definition update_item : route :=
  Route "PUT" [Lit "items"; Par "item_id"]
        [path_param "item_id" TInt unconstrained;
         Param LBody None true (required "item" Models.Item)]
        update_item RNone.

Definition read_unicorn : route :=
  Route "GET" [Lit "unicorns"; Par "name"]
        [path_param "name" TStr unconstrained]
        read_unicorn RNone.

(** The routes modelled here, in the order main.py registers them. *)
Definition table : list route :=
  [ update_item; Routes.read_item; Routes.read_item_travel; Routes.create_user;
    Routes.read_offer; Routes.create_offer; Routes.login; read_unicorn;
    Routes.send_notification ].

End MoreRoutes.

(** The method and the first literal segment of a route. *)
Definition route_key (r : route) : string * option string :=
  (r_method r, match r_path r with Lit l :: _ => Some l | _ => None end).

(** The body [read_item] returns on every call. *)
Definition portal_and_plumbus : value :=
  VList [ Item_ "Portal Gun" (Num.float_of_Z 42); Item_ "Plumbus" (Num.float_of_Z 32) ].

(** The message of a task. *)
Definition message_of (t : task) : string :=
  match t with WriteLog message => message end.

(** The entry [k: v] of a dict when [v] is truthy. *)
Definition keep (k : string) (v : value) : list (string * value) :=
  if truthy v then [(k, v)] else [].

(** The messages of a queue, one after the other. *)
Definition messages (ts : list task) : string :=
  fold_right (fun t acc => message_of t ++ acc) "" ts.

Module MoreSample.

(** GET /unicorns/yolo and GET /unicorns/rick *)
Definition yolo : request := Sample.get ["unicorns"; "yolo"] [] None.
Definition rick : request := Sample.get ["unicorns"; "rick"] [] None.

(** GET /items/5?size=1.5&q=a&q=b&q=c with body [3] *)
Definition good_item : request :=
  Sample.get ["items"; "5"] [("size", "1.5"); ("q", "a"); ("q", "b"); ("q", "c")]
             (Some (VInt 3)).

(** The same request with the body [3.0], and with the body [true]. *)
Definition good_item_float : request :=
  Sample.get ["items"; "5"] [("size", "1.5"); ("q", "a"); ("q", "b"); ("q", "c")]
             (Some (VFloat (Num.float_of_Z 3))).
Definition good_item_true : request :=
  Sample.get ["items"; "5"] [("size", "1.5"); ("q", "a"); ("q", "b"); ("q", "c")]
             (Some (VBool true)).

(** An item as a parsed JSON object. *)
Definition plumbus : list (string * value) :=
  [ ("name", VStr "Plumbus"); ("price", VFloat (Num.float_of_Z 32));
    ("tags", VList (map VStr ["b"; "a"; "b"])) ].

(** PUT /items/7 with the item under the key [item], and with the bare item. *)
Definition put_wrapped : request :=
  Request "PUT" ["items"; "7"] [] [] (Some (VDict [ ("item", VDict plumbus) ])).
Definition put_bare : request :=
  Request "PUT" ["items"; "7"] [] [] (Some (VDict plumbus)).

(** PUT /items/7 with an item that has no name and a price of zero. *)
Definition put_two_bad : request :=
  Request "PUT" ["items"; "7"] [] [] (Some (VDict [ ("item", VDict [ ("price", VInt 0) ]) ])).

(** POST /user/ without a password *)
Definition user_without_password : request :=
  Sample.post ["user"; ""] [] [] (Some (VDict [ ("username", VStr "rick") ])).

(** POST /offers/ whose second item has no price *)
Definition offer_without_price : request :=
  Sample.post ["offers"; ""] [] []
    (Some (VDict [ ("name", VStr "bundle"); ("price", VInt 9);
                   ("items", VList [ VDict plumbus;
                                     VDict [ ("name", VStr "Portal Gun") ] ]) ])).

(** POST /login/ with the field named [username] instead of [user-name] *)
Definition login_unaliased : request :=
  Sample.post ["login"; ""] [] [("username", "rick"); ("password", "wubba")] None.

(** POST /send-notification/a@b.c *)
Definition notify_plain : request :=
  Sample.post ["send-notification"; "a@b.c"] [] [] None.

End MoreSample.

(** * Properties *)

(** ** The engine reports at least one issue whenever it fails *)

Lemma gather_inr (rs : list result) (es : list issue) :
  gather rs = inr es -> es = flat_map issues rs /\ Exists (fun r => is_ok r = false) rs.
Proof.
  revert es. induction rs as [|r rs IH]; intros es; simpl; [discriminate|].
  destruct r as [v|e], (gather rs) as [vs|es'] eqn:G; intros [= <-]; simpl.
  - destruct (IH _ eq_refl) as [-> Hex]. split; [done|]. by apply Exists_cons_tl.
  - split; [|by apply Exists_cons_hd].
    clear IH. revert vs G. induction rs as [|r rs IH]; intros vs G; simpl in *.
    + by rewrite app_nil_r.
    + destruct r as [v|e'], (gather rs) as [vs'|]; try discriminate.
      simpl. by apply (IH vs').
  - destruct (IH _ eq_refl) as [-> _]. split; [done|]. by apply Exists_cons_hd.
Qed.

Lemma gather_inl (rs : list result) (vs : list value) :
  gather rs = inl vs -> rs = map inl vs.
Proof.
  revert vs. induction rs as [|r rs IH]; intros vs; simpl.
  - by intros [= <-].
  - destruct r as [v|e], (gather rs) as [vs'|es'] eqn:G; intros [= <-].
    simpl. by rewrite (IH vs').
Qed.

Lemma gather_map_inl (vs : list value) : gather (map inl vs) = inl vs.
Proof. induction vs as [|v vs IH]; simpl; [done|]. by rewrite IH. Qed.

Lemma check_issues c raw v es : check c raw v = inr es -> es <> [].
Proof.
  unfold check. destruct (violations c v) as [|k ks]; [discriminate|].
  by intros [= <-].
Qed.

Lemma under_issues s r : issues (under s r) = [] <-> issues r = [].
Proof. destruct r as [v|es]; simpl; [done|]. by destruct es. Qed.

Lemma under_is_ok s r : is_ok (under s r) = is_ok r.
Proof. by destruct r. Qed.

Lemma sound_under s r : sound r -> sound (under s r).
Proof.
  intros H es. destruct r as [v|es0]; simpl; [discriminate|].
  intros [= <-]. specialize (H es0 eq_refl). by destruct es0.
Qed.

Lemma sound_gather (rs : list result) :
  Forall sound rs -> forall es, gather rs = inr es -> es <> [].
Proof.
  induction 1 as [|r rs Hr _ IH]; intros es; simpl; [discriminate|].
  destruct r as [v|e], (gather rs) as [vs|es'] eqn:G; intros [= <-].
  - by apply IH.
  - by apply Hr.
  - specialize (Hr e eq_refl). by destruct e.
Qed.

Section EngineFacts.
Context {HT : HostText}.

Lemma coerce_sound t : forall c raw, sound (coerce t c raw).
Proof.
  induction t using ftype_rect'; intros c raw es; simpl.
  - destruct (to_int raw); [apply check_issues|]. by intros [= <-].
  - destruct (to_float raw); [apply check_issues|]. by intros [= <-].
  - destruct raw; try (by intros [= <-]). apply check_issues.
  - destruct raw; try (by intros [= <-]).
    destruct (is_http_url s); [apply check_issues|by intros [= <-]].
  - destruct raw; try apply IHt. discriminate.
  - destruct raw; try (by intros [= <-]).
    destruct (gather _) as [vs|es'] eqn:G; [apply check_issues|].
    intros [= <-]. eapply sound_gather; [|exact G].
    apply Forall_map, Forall_forall. intros [i r] _. apply sound_under, IHt.
  - destruct raw; try (by intros [= <-]); [|apply check_issues].
    destruct (mapM as_str l); [apply check_issues|by intros [= <-]].
  - destruct raw; try (by intros [= <-]).
    destruct (gather _) as [vs|es'] eqn:G; [discriminate|].
    intros [= <-]. eapply sound_gather; [|exact G].
    clear G. induction H as [|f fs Hf Hfs IH]; [constructor|].
    constructor; [|exact IH].
    apply sound_under. destruct (dict_get (f_name f) kvs); [apply Hf|].
    destruct (f_default f); intros es0; [discriminate|by intros [= <-]].
Qed.

Lemma validate_sound f raw : sound (validate f raw).
Proof.
  destruct raw as [r|]; simpl; [apply coerce_sound|].
  destruct (f_default f); intros es; [discriminate|by intros [= <-]].
Qed.

End EngineFacts.

(** ** The binder: all violations or a complete instance *)

Section BinderFacts.
Context {HT : HostText}.
Variables (ps : list param) (pp : list (string * string)) (req : request).

Lemma invalid_reported (l : list param) (p : param) :
  p ∈ l -> is_ok (validate_param ps pp req p) = false ->
  exists v, v ∈ flat_map (param_violations ps pp req) l
            /\ v_loc v = p_loc p /\ v_field v = p_name p.
Proof.
  intros Hin Hbad.
  destruct (validate_param ps pp req p) as [v|es] eqn:E; [discriminate|].
  pose proof (validate_sound _ _ _ E) as Hne.
  destruct es as [|e es]; [done|].
  exists (locate p e). split; [|done].
  apply list_elem_of_In, in_flat_map. exists p. split; [by apply list_elem_of_In|].
  unfold param_violations. rewrite E. simpl. by left.
Qed.

Lemma invalid_counted (l : list param) :
  (length (List.filter (fun p => negb (is_ok (validate_param ps pp req p))) l)
   <= length (flat_map (param_violations ps pp req) l))%nat.
Proof.
  induction l as [|p l IH]; simpl; [done|].
  rewrite length_app. unfold param_violations at 1.
  destruct (validate_param ps pp req p) as [v|es] eqn:E; simpl; [lia|].
  pose proof (validate_sound _ _ _ E) as Hne.
  destruct es; [done|]. simpl. lia.
Qed.

Lemma issue_located (p : param) (e : issue) :
  p ∈ ps -> e ∈ issues (validate_param ps pp req p) ->
  locate p e ∈ flat_map (param_violations ps pp req) ps.
Proof.
  intros Hp He. apply list_elem_of_In, in_flat_map. exists p.
  split; [by apply list_elem_of_In|].
  apply list_elem_of_In. unfold param_violations. by apply list_elem_of_fmap_2.
Qed.

Lemma bind_fails (p : param) :
  p ∈ ps -> is_ok (validate_param ps pp req p) = false ->
  bind ps pp req = inr (flat_map (param_violations ps pp req) ps).
Proof.
  intros Hin Hbad. destruct (invalid_reported ps p Hin Hbad) as (v & Hv & _).
  unfold bind. destruct (flat_map _ ps); [by apply elem_of_nil in Hv|done].
Qed.

Lemma no_violation_all_valid (l : list param) :
  flat_map (param_violations ps pp req) l = [] ->
  List.filter (fun p => negb (is_ok (validate_param ps pp req p))) l = []
  /\ dict_keys (flat_map (fun p => match validate_param ps pp req p with
                                   | inl v => [(p_name p, v)]
                                   | inr _ => []
                                   end) l) = map p_name l.
Proof.
  induction l as [|p l IH]; simpl; [done|].
  intros H. apply app_eq_nil in H as [H1 H2]. destruct (IH H2) as [IH1 IH2].
  unfold param_violations in H1.
  destruct (validate_param ps pp req p) as [v|es] eqn:E; simpl.
  - split; [done|]. unfold dict_keys in *. simpl. by rewrite IH2.
  - pose proof (validate_sound _ _ _ E). by destruct es.
Qed.

Lemma bind_complete (a : kwargs) :
  bind ps pp req = inl a ->
  invalid_params ps pp req = [] /\ dict_keys a = map p_name ps.
Proof.
  unfold bind. destruct (flat_map (param_violations ps pp req) ps) eqn:E; [|discriminate].
  intros [= <-]. by apply no_violation_all_valid.
Qed.

End BinderFacts.

Section PipelineFacts.
Context {HT : HostText}.
Variables (r : route) (req : request) (w : world) (pp : list (string * string)).
Hypothesis Hm : matches r req = Some pp.

Lemma run_invalid vs :
  bind (r_params r) pp req = inr vs -> run r req w = Some (Invalid vs, [], w).
Proof. intros Hb. unfold run. rewrite Hm. unfold mbind, option_bind. by rewrite Hb. Qed.

Lemma run_bound a :
  bind (r_params r) pp req = inl a ->
  run r req w
  = Some match r_handler r a (Ctx w []) with
         | (c, inl v) => (resolve (r_response r) v, background_tasks c, c_world c)
         | (c, inr e) => (map_exception e, background_tasks c, c_world c)
         end.
Proof. intros Hb. unfold run. rewrite Hm. unfold mbind, option_bind. by rewrite Hb. Qed.

End PipelineFacts.

Lemma invalid_in_params `{HT : HostText} ps pp req p :
  p ∈ invalid_params ps pp req ->
  p ∈ ps /\ is_ok (validate_param ps pp req p) = false.
Proof.
  unfold invalid_params. rewrite list_elem_of_In, filter_In, <- list_elem_of_In.
  intros [Hin Hbad]. split; [done|]. by apply negb_true_iff.
Qed.

(** ** Strict numeric bounds *)

Lemma positive_gt_zero (m : positive) (e : Z) :
  Num.gtb (Num.NFloat (S754_finite false m e)) (Num.NInt 0) = true.
Proof.
  assert (H : Num.fin_compare (Z.pos m) e 0 0 = Gt).
  { unfold Num.fin_compare. rewrite Z.mul_0_l. apply Z.compare_gt_iff.
    apply Z.mul_pos_pos; [lia|]. apply Z.pow_pos_nonneg; lia. }
  unfold Num.gtb, Num.compare. cbn [Num.xnum_of]. by rewrite H.
Qed.

Lemma zero_not_gt_zero (s : bool) :
  Num.gtb (Num.NFloat (S754_zero s)) (Num.NInt 0) = false.
Proof. reflexivity. Qed.

Lemma validate_float `{HT : HostText} (f : field) (raw : value) (x : spec_float) :
  f_type f = TFloat -> to_float raw = Some x ->
  validate f (Some raw) = check (f_cons f) raw (VFloat x).
Proof. intros Ht Hx. unfold validate. rewrite Ht. simpl. by rewrite Hx. Qed.

(** C6.  For [size] (gt=0, lt=10.5) and for [Item.price] (gt=0), on any raw
    value that coerces to the float [f]: a zero is rejected by the gt bound;
    every positive [f] passes the gt bound (and is a valid price); 10.5 itself
    is rejected by the lt bound of [size]; [size] is accepted exactly when
    0 < f < 10.5, [price] exactly when 0 < f; and a GET /items/{item_id}
    request whose [size] is a zero, or 10.5, fails with that violation of
    [size] in its list. *)
Theorem C6_strict_bounds `{HT : HostText} (raw : value) (f : spec_float) :
  to_float raw = Some f ->
  let size := p_field Routes.size in
  let price := Models.Item_price in
  (forall s, f = S754_zero s ->
     validate size (Some raw) = inr [Issue [] GreaterThan raw]
     /\ validate price (Some raw) = inr [Issue [] GreaterThan raw])
  /\ (forall m e, f = S754_finite false m e ->
        (GreaterThan ∉ map i_kind (issues (validate size (Some raw))))
        /\ validate price (Some raw) = inl (VFloat f))
  /\ (f = Num.f10_5 -> validate size (Some raw) = inr [Issue [] LessThan raw])
  /\ (validate size (Some raw) = inl (VFloat f)
      <-> (Num.gtb (Num.NFloat f) (Num.NInt 0)
           && Num.ltb (Num.NFloat f) (Num.NFloat Num.f10_5)) = true)
  /\ (validate price (Some raw) = inl (VFloat f)
      <-> Num.gtb (Num.NFloat f) (Num.NInt 0) = true)
  /\ (forall req pp w k,
        matches Routes.read_item req = Some pp ->
        raw_of (r_params Routes.read_item) pp req Routes.size = Some raw ->
        (exists s, f = S754_zero s) /\ k = GreaterThan
        \/ f = Num.f10_5 /\ k = LessThan ->
        exists vs,
          run Routes.read_item req w = Some (Invalid vs, [], w)
          /\ Violation LQuery "size" [] k raw ∈ vs).
Proof.
  intros Hf size price.
  assert (Hreq : forall req pp w k,
            matches Routes.read_item req = Some pp ->
            raw_of (r_params Routes.read_item) pp req Routes.size = Some raw ->
            validate size (Some raw) = inr [Issue [] k raw] ->
            exists vs,
              run Routes.read_item req w = Some (Invalid vs, [], w)
              /\ Violation LQuery "size" [] k raw ∈ vs).
  { intros req pp w k Hm Hraw Hv.
    set (ps := r_params Routes.read_item).
    assert (Hin : Routes.size ∈ ps) by (apply list_elem_of_In; simpl; tauto).
    assert (Hvp : validate_param ps pp req Routes.size = inr [Issue [] k raw]).
    { unfold validate_param. fold ps in Hraw. by rewrite Hraw. }
    exists (flat_map (param_violations ps pp req) ps). split.
    - apply (run_invalid _ _ _ _ Hm). apply (bind_fails _ _ _ Routes.size Hin).
      by rewrite Hvp.
    - apply (issue_located ps pp req Routes.size (Issue [] k raw) Hin).
      rewrite Hvp. apply list_elem_of_In. simpl. by left. }
  revert Hreq.
  rewrite (validate_float size raw f eq_refl Hf), (validate_float price raw f eq_refl Hf).
  unfold check, violations, violated. simpl. intros Hreq.
  split; [|split; [|split; [|split; [|split]]]];
    [| | | | |intros req pp w k Hm Hraw [[[s ->] ->]|[-> ->]];
              by apply (Hreq req pp w _ Hm Hraw)].
  - intros s ->. rewrite zero_not_gt_zero. simpl. done.
  - intros m e ->. rewrite positive_gt_zero. simpl. split; [|done].
    destruct (Num.ltb _ _); simpl; [apply not_elem_of_nil|].
    intros Hin. apply list_elem_of_In in Hin. simpl in Hin. by destruct Hin.
  - intros ->. reflexivity.
  - destruct (Num.gtb _ _), (Num.ltb _ _); simpl; split; try done; discriminate.
  - destruct (Num.gtb _ _); simpl; split; try done; discriminate.
Qed.

Lemma C6_witness :
  to_float (HT:=Decimal.text) (VStr "0") = Some (S754_zero false)
  /\ validate (HT:=Decimal.text) (p_field Routes.size) (Some (VStr "0"))
     = inr [Issue [] GreaterThan (VStr "0")]
  /\ validate (HT:=Decimal.text) Models.Item_price (Some (VInt 0))
     = inr [Issue [] GreaterThan (VInt 0)]
  /\ validate (HT:=Decimal.text) (p_field Routes.size) (Some (VStr "5e-324"))
     = inl (VFloat (S754_finite false 1 (-1074)))
  /\ validate (HT:=Decimal.text) (p_field Routes.size) (Some (VStr "10.5"))
     = inr [Issue [] LessThan (VStr "10.5")]
  /\ validate (HT:=Decimal.text) (p_field Routes.size) (Some (VStr "10.499999999999998"))
     = inl (VFloat (S754_finite false 5910974510923775 (-49)))
  /\ (exists vs,
        run (HT:=Decimal.text) Routes.read_item Sample.zero_size Sample.w0
        = Some (Invalid vs, [], Sample.w0)
        /\ Violation LQuery "size" [] GreaterThan (VStr "0") ∈ vs).
Proof.
  assert (H0 : to_float (HT:=Decimal.text) (VStr "0") = Some (S754_zero false))
    by (vm_compute; reflexivity).
  assert (H0' : to_float (HT:=Decimal.text) (VInt 0) = Some (S754_zero false))
    by (vm_compute; reflexivity).
  assert (H1 : to_float (HT:=Decimal.text) (VStr "5e-324")
               = Some (S754_finite false 1 (-1074)))
    by (vm_compute; reflexivity).
  assert (H2 : to_float (HT:=Decimal.text) (VStr "10.5") = Some Num.f10_5)
    by (vm_compute; reflexivity).
  assert (H3 : to_float (HT:=Decimal.text) (VStr "10.499999999999998")
               = Some (S754_finite false 5910974510923775 (-49)))
    by (vm_compute; reflexivity).
  split; [exact H0|]. split; [|split; [|split; [|split; [|split]]]].
  6:{ destruct (C6_strict_bounds _ _ H0) as (_ & _ & _ & _ & _ & Hreq).
      apply (Hreq Sample.zero_size [("item_id", "5")] Sample.w0 GreaterThan
               eq_refl eq_refl).
      left. split; [by exists false|reflexivity]. }
  - by apply (C6_strict_bounds _ _ H0) with (s := false).
  - by apply (C6_strict_bounds _ _ H0') with (s := false).
  - apply (C6_strict_bounds _ _ H1). vm_compute; reflexivity.
  - by apply (C6_strict_bounds _ _ H2).
  - apply (C6_strict_bounds _ _ H3). vm_compute; reflexivity.
Defined.

(** ** The two stores *)

Lemma items_lookup (k : string) (v : value) :
  items !! k = Some v <->
  (k = "item1" /\ v = car_record) \/ (k = "item2" /\ v = plane_record).
Proof.
  unfold items. rewrite lookup_insert_Some, lookup_singleton_Some. split.
  - intros [[<- <-]|[_ [<- <-]]]; [by left|by right].
  - intros [[-> ->]|[-> ->]]; [by left|by right].
Qed.

Lemma items_lookup_None (k : string) :
  items !! k = None <-> k <> "item1" /\ k <> "item2".
Proof.
  unfold items. rewrite lookup_insert_None, lookup_singleton_None. intuition congruence.
Qed.

Lemma offers_lookup (k : string) (v : value) :
  offers !! k = Some v <-> k = "foo" /\ v = VStr "The Foo Wrestlers".
Proof. unfold offers. rewrite lookup_singleton_Some. intuition congruence. Qed.

Lemma offers_lookup_None (k : string) : offers !! k = None <-> k <> "foo".
Proof. unfold offers. rewrite lookup_singleton_None. intuition congruence. Qed.

(** ** Routes with one path parameter *)

Section RouteFacts.
Context {HT : HostText}.

Lemma run_read_item_travel (req : request) (w : world) (item_id : string) :
  method req = "GET" -> path req = ["travel_items"; item_id] -> item_id <> "" ->
  run Routes.read_item_travel req w
  = Some match items !! item_id with
         | Some v => (resolve (r_response Routes.read_item_travel) v, [], w)
         | None => (map_exception (KeyError item_id), [], w)
         end.
Proof.
  destruct req as [m p qs fs b]. simpl. intros -> -> Hne.
  apply String.eqb_neq in Hne. unfold run, matches. simpl. rewrite Hne. simpl.
  unfold read_item_travel, str_arg, arg. simpl. by destruct (items !! item_id).
Qed.

Lemma run_read_offer (req : request) (w : world) (offer_id : string) :
  method req = "GET" -> path req = ["offers"; offer_id] -> offer_id <> "" ->
  run Routes.read_offer req w
  = Some match offers !! offer_id with
         | Some v => (resolve (r_response Routes.read_offer) v, [], w)
         | None =>
             (map_exception (HTTPException 404 "Offer not found"
                               [("X-Error", "There goes my error")]), [], w)
         end.
Proof.
  destruct req as [m p qs fs b]. simpl. intros -> -> Hne.
  apply String.eqb_neq in Hne. unfold run, matches. simpl. rewrite Hne. simpl.
  unfold read_offer, str_arg, arg. simpl. by destruct (offers !! offer_id).
Qed.

(** ** Projection onto a model *)

Lemma coerce_model n fs c kvs :
  coerce (TModel n fs) c (VDict kvs)
  = match gather (validate_fields fs kvs) with
    | inl vs => inl (VDict (zip (field_names fs) vs))
    | inr es => inr es
    end.
Proof.
  simpl. unfold validate_fields.
  replace ((fix each (fs0 : list field) : list result :=
              match fs0 with
              | [] => []
              | f :: rest =>
                  under (SKey (f_name f))
                    match dict_get (f_name f) kvs with
                    | Some r => coerce (f_type f) (f_cons f) r
                    | None => match f_default f with
                              | Some d => inl d
                              | None => inr [Issue [] Missing VNone]
                              end
                    end :: each rest
              end) fs)
    with (map (fun f => under (SKey (f_name f)) (validate f (dict_get (f_name f) kvs))) fs);
    [done|].
  induction fs as [|f fs IH]; [done|]. simpl. by rewrite IH.
Qed.

Lemma gather_length rs vs : gather rs = inl vs -> length vs = length rs.
Proof. intros H. apply gather_inl in H as ->. by rewrite length_map. Qed.

Lemma jsonable_keys kvs :
  dict_keys (map (fun kv : string * value => (kv.1, jsonable kv.2)) kvs) = dict_keys kvs.
Proof. unfold dict_keys. rewrite map_map. by apply map_ext. Qed.

Lemma resolve_model_keys n fs v body :
  resolve_type (TModel n fs) v = Success body ->
  body_keys (Success body) = field_names fs.
Proof.
  unfold resolve_type. destruct v; try discriminate.
  rewrite coerce_model. destruct (gather _) as [vs|] eqn:G; [|discriminate].
  intros [= <-]. simpl. rewrite jsonable_keys. unfold dict_keys.
  apply fst_zip. apply gather_length in G. rewrite G.
  unfold validate_fields, field_names. by rewrite !length_map.
Qed.

Lemma discriminator_selects (v : value) (tag : string) :
  discriminator v = Some (VStr tag) ->
  select_variant "type" [Models.PlaneItem; Models.CarItem] v
  = if String.eqb "plane" tag then Some Models.PlaneItem
    else if String.eqb "car" tag then Some Models.CarItem else None.
Proof.
  destruct v; try discriminate. simpl. intros ->. reflexivity.
Qed.

End RouteFacts.

(** ** Where a violation is reported *)

Lemma gather_issue (rs : list result) (r : result) (e : issue) :
  r ∈ rs -> e ∈ issues r -> exists es, gather rs = inr es /\ e ∈ es.
Proof.
  intros Hr He. induction rs as [|r0 rs IH]; [by apply elem_of_nil in Hr|].
  apply elem_of_cons in Hr as [<- | Hr]; simpl.
  - destruct r as [v|es0]; simpl in He; [by apply elem_of_nil in He|].
    destruct (gather rs) as [vs|es'].
    + exists es0. by split.
    + exists (es0 ++ es')%list. split; [done|]. apply elem_of_app. by left.
  - destruct (IH Hr) as (es & -> & Hin).
    destruct r0 as [v|es0].
    + exists es. by split.
    + exists (es0 ++ es)%list. split; [done|]. apply elem_of_app. by right.
Qed.

Lemma under_issue (s : seg) (r : result) (e : issue) :
  e ∈ issues r -> Issue (s :: i_path e) (i_kind e) (i_input e) ∈ issues (under s r).
Proof.
  destruct r as [v|es]; simpl; [by intros He%elem_of_nil|]. intros He.
  by apply (list_elem_of_fmap_2 (fun e => Issue (s :: i_path e) (i_kind e) (i_input e))).
Qed.

Lemma indexed_lookup {A} (k i : nat) (l : list A) :
  indexed k l !! i = (fun x => ((k + i)%nat, x)) <$> l !! i.
Proof.
  revert k i. induction l as [|x l IH]; intros k i; [done|].
  destruct i as [|i]; simpl; [by rewrite Nat.add_0_r|].
  rewrite IH. by rewrite Nat.add_succ_r.
Qed.

Section Reported.
Context {HT : HostText}.

Lemma model_field_issue n fs c kvs (f : field) (e : issue) :
  f ∈ fs -> e ∈ issues (validate f (dict_get (f_name f) kvs)) ->
  exists es, coerce (TModel n fs) c (VDict kvs) = inr es
             /\ Issue (SKey (f_name f) :: i_path e) (i_kind e) (i_input e) ∈ es.
Proof.
  intros Hf He. rewrite coerce_model.
  destruct (gather_issue (validate_fields fs kvs)
              (under (SKey (f_name f)) (validate f (dict_get (f_name f) kvs)))
              (Issue (SKey (f_name f) :: i_path e) (i_kind e) (i_input e)))
    as (es & -> & Hin).
  - unfold validate_fields.
    by apply (list_elem_of_fmap_2
                (fun f => under (SKey (f_name f)) (validate f (dict_get (f_name f) kvs)))).
  - by apply under_issue.
  - eauto.
Qed.

Lemma list_item_issue t c l (i : nat) (r : value) (e : issue) :
  l !! i = Some r -> e ∈ issues (coerce t unconstrained r) ->
  exists es, coerce (TList t) c (VList l) = inr es
             /\ Issue (SIdx i :: i_path e) (i_kind e) (i_input e) ∈ es.
Proof.
  intros Hi He. cbn [coerce].
  destruct (gather_issue
              (map (fun ir : nat * value => under (SIdx ir.1) (coerce t unconstrained ir.2))
                   (indexed 0 l))
              (under (SIdx i) (coerce t unconstrained r))
              (Issue (SIdx i :: i_path e) (i_kind e) (i_input e)))
    as (es & -> & Hin).
  - apply list_elem_of_lookup. exists i.
    by rewrite list_lookup_fmap, indexed_lookup, Hi.
  - by apply under_issue.
  - eauto.
Qed.

Lemma run_rejects (r : route) (req : request) (w : world) pp (p : param) (e : issue) :
  matches r req = Some pp -> p ∈ r_params r ->
  e ∈ issues (validate_param (r_params r) pp req p) ->
  exists vs, run r req w = Some (Invalid vs, [], w) /\ locate p e ∈ vs.
Proof.
  intros Hm Hp He.
  exists (flat_map (param_violations (r_params r) pp req) (r_params r)). split.
  - apply (run_invalid _ _ _ _ Hm). apply (bind_fails _ _ _ p Hp).
    destruct (validate_param (r_params r) pp req p); simpl in He;
      [by apply elem_of_nil in He|done].
  - by apply issue_located.
Qed.

End Reported.

(** ** Invalid fields at any depth *)

Section Nested.
Context {HT : HostText}.

Lemma subfield_issue t r path f raw (e : issue) :
  subfield t r path f raw -> e ∈ issues (validate f raw) ->
  forall c, Issue (path ++ i_path e) (i_kind e) (i_input e) ∈ issues (coerce t c r).
Proof.
  intros Hsub He. induction Hsub as
    [n fs kvs f Hf | n fs kvs f r path f' raw' Hf Hget _ IH
    | t l i r path f' raw' Hi _ IH | t r path f' raw' Hr _ IH]; intros c.
  - destruct (model_field_issue n fs c kvs f e Hf He) as (es & -> & Hes). exact Hes.
  - specialize (IH He (f_cons f)).
    destruct (model_field_issue n fs c kvs f
                (Issue (path ++ i_path e) (i_kind e) (i_input e)) Hf)
      as (es & -> & Hes); [|exact Hes].
    rewrite Hget. exact IH.
  - specialize (IH He unconstrained).
    destruct (list_item_issue t c l i r
                (Issue (path ++ i_path e) (i_kind e) (i_input e)) Hi IH)
      as (es & -> & Hes). exact Hes.
  - specialize (IH He c). by destruct r.
Qed.

Lemma failing_issue (r : result) : is_ok r = false -> sound r -> exists e, e ∈ issues r.
Proof.
  destruct r as [v|es]; [discriminate|]. intros _ Hs.
  specialize (Hs es eq_refl). destruct es as [|e es]; [done|].
  exists e. apply elem_of_cons. by left.
Qed.

Lemma invalid_field_issue ps pp req p path :
  invalid_field ps pp req p path ->
  exists e, e ∈ issues (validate_param ps pp req p) /\ path `prefix_of` i_path e.
Proof.
  intros (Hp & f & raw & Hat & Hbad).
  destruct (failing_issue _ Hbad (validate_sound f raw)) as (e & He).
  destruct Hat as [(-> & -> & ->) | (r & Hraw & Hsub)].
  - exists e. split; [exact He|]. apply prefix_nil.
  - exists (Issue (path ++ i_path e) (i_kind e) (i_input e)). split.
    + unfold validate_param. rewrite Hraw. apply (subfield_issue _ _ _ _ _ e Hsub He).
    + by apply prefix_app_r.
Qed.

Lemma invalid_field_rejected (r : route) (req : request) (w : world) pp p path :
  matches r req = Some pp ->
  invalid_field (r_params r) pp req p path ->
  let vs := flat_map (param_violations (r_params r) pp req) (r_params r) in
  bind (r_params r) pp req = inr vs
  /\ (forall h, run (with_handler r h) req w = Some (Invalid vs, [], w))
  /\ exists v, v ∈ vs /\ v_loc v = p_loc p /\ v_field v = p_name p
               /\ path `prefix_of` v_path v.
Proof.
  intros Hm Hinv vs.
  destruct (invalid_field_issue _ _ _ _ _ Hinv) as (e & He & Hpre).
  destruct Hinv as (Hp & _).
  assert (Hb : bind (r_params r) pp req = inr vs).
  { apply (bind_fails _ _ _ p Hp).
    destruct (validate_param (r_params r) pp req p); simpl in He;
      [by apply elem_of_nil in He|done]. }
  split; [exact Hb|]. split.
  - intros h. by apply (run_invalid (with_handler r h) req w pp).
  - exists (locate p e). split; [by apply issue_located|]. by repeat split.
Qed.

End Nested.

(** C1.  For every route and every request that matches it: when two or more
    fields of the request are invalid, at any depth (a parameter itself, or a
    field of a model below it), the binder returns one failure whose list
    holds, for every invalid field, a violation with the field's location and
    parameter name at or below the field's path; the outcome is that failure
    whatever the handler is, with nothing printed, logged or enqueued.
    Binding yields typed arguments only when no field is invalid, and then
    one for every declared parameter.  On GET /items/{item_id}, when
    [item_id], [size] and [importance] are all invalid the failure names each
    of them. *)
Theorem C1_binding_aggregates `{HT : HostText} (r : route) (req : request)
    (pp : list (string * string)) (w : world) :
  matches r req = Some pp ->
  let ps := r_params r in
  (forall p1 path1 p2 path2,
     invalid_field ps pp req p1 path1 ->
     invalid_field ps pp req p2 path2 ->
     (p1, path1) <> (p2, path2) ->
     exists vs,
       bind ps pp req = inr vs
       /\ run r req w = Some (Invalid vs, [], w)
       /\ (forall h, run (with_handler r h) req w = Some (Invalid vs, [], w))
       /\ (forall p path, invalid_field ps pp req p path ->
             exists v, v ∈ vs /\ v_loc v = p_loc p /\ v_field v = p_name p
                       /\ path `prefix_of` v_path v)
       /\ (length (invalid_params ps pp req) <= length vs)%nat)
  /\ (forall a, bind ps pp req = inl a ->
        dict_keys a = map p_name ps
        /\ (forall p path, ~ invalid_field ps pp req p path))
  /\ (r = Routes.read_item ->
      is_ok (validate_param ps pp req Routes.item_id) = false ->
      is_ok (validate_param ps pp req Routes.size) = false ->
      is_ok (validate_param ps pp req Routes.importance) = false ->
      exists vs v1 v2 v3,
        run r req w = Some (Invalid vs, [], w)
        /\ v1 ∈ vs /\ v2 ∈ vs /\ v3 ∈ vs
        /\ (v_loc v1, v_field v1) = (LPath, "item_id")
        /\ (v_loc v2, v_field v2) = (LQuery, "size")
        /\ (v_loc v3, v_field v3) = (LBody, "importance")).
Proof.
  intros Hm ps. split; [|split].
  - intros p1 path1 p2 path2 H1 _ _.
    exists (flat_map (param_violations ps pp req) ps).
    destruct (invalid_field_rejected r req w pp p1 path1 Hm H1) as (Hb & Hh & _).
    split; [exact Hb|]. split; [by apply (run_invalid _ _ _ _ Hm)|].
    split; [exact Hh|]. split.
    + intros p path Hinv.
      by destruct (invalid_field_rejected r req w pp p path Hm Hinv) as (_ & _ & Hv).
    + apply invalid_counted.
  - intros a Hb. split; [by destruct (bind_complete ps pp req a Hb)|].
    intros p path Hinv.
    destruct (invalid_field_rejected r req w pp p path Hm Hinv) as (Hb' & _).
    fold ps in Hb'. congruence.
  - intros -> H1 H2 H3.
    assert (Hi1 : Routes.item_id ∈ ps) by (apply list_elem_of_In; simpl; tauto).
    assert (Hi2 : Routes.size ∈ ps) by (apply list_elem_of_In; simpl; tauto).
    assert (Hi3 : Routes.importance ∈ ps) by (apply list_elem_of_In; simpl; tauto).
    destruct (invalid_reported ps pp req ps _ Hi1 H1) as (v1 & Hv1 & Hl1 & Hf1).
    destruct (invalid_reported ps pp req ps _ Hi2 H2) as (v2 & Hv2 & Hl2 & Hf2).
    destruct (invalid_reported ps pp req ps _ Hi3 H3) as (v3 & Hv3 & Hl3 & Hf3).
    exists (flat_map (param_violations ps pp req) ps), v1, v2, v3.
    split; [apply (run_invalid _ _ _ _ Hm); by eapply bind_fails|].
    repeat split; try done; by rewrite ?Hl1, ?Hf1, ?Hl2, ?Hf2, ?Hl3, ?Hf3.
Qed.

Lemma C1_witness :
  (exists vs v1 v2 v3,
     run (HT:=Decimal.text) Routes.read_item Sample.bad_item Sample.w0
     = Some (Invalid vs, [], Sample.w0)
     /\ v1 ∈ vs /\ v2 ∈ vs /\ v3 ∈ vs
     /\ (v_loc v1, v_field v1) = (LPath, "item_id")
     /\ (v_loc v2, v_field v2) = (LQuery, "size")
     /\ (v_loc v3, v_field v3) = (LBody, "importance"))
  /\ run (HT:=Decimal.text) MoreRoutes.update_item MoreSample.put_two_bad Sample.w0
     = Some (Invalid [ Violation LBody "item" [SKey "name"] Missing VNone;
                       Violation LBody "item" [SKey "price"] GreaterThan (VInt 0) ],
             [], Sample.w0).
Proof.
  split.
  - destruct (C1_binding_aggregates (HT:=Decimal.text) Routes.read_item Sample.bad_item
                [("item_id", "-1")] Sample.w0 eq_refl) as (_ & _ & H).
    apply H; reflexivity.
  - set (item := Param LBody None true (required "item" Models.Item)).
    set (kvs := [ ("price", VInt 0) ]).
    assert (Hin : item ∈ r_params MoreRoutes.update_item).
    { apply elem_of_cons. right. apply elem_of_cons. by left. }
    assert (Hname : invalid_field (HT:=Decimal.text) (r_params MoreRoutes.update_item)
                      [("item_id", "7")] MoreSample.put_two_bad item [SKey "name"]).
    { split; [exact Hin|]. exists (required "name" TStr), None. split; [|reflexivity].
      right. exists (VDict kvs). split; [reflexivity|].
      apply (sub_field "Item" (model_fields Models.Item) kvs (required "name" TStr)).
      apply list_elem_of_In. vm_compute. tauto. }
    assert (Hprice : invalid_field (HT:=Decimal.text) (r_params MoreRoutes.update_item)
                       [("item_id", "7")] MoreSample.put_two_bad item [SKey "price"]).
    { split; [exact Hin|]. exists Models.Item_price, (Some (VInt 0)).
      split; [|reflexivity].
      right. exists (VDict kvs). split; [reflexivity|].
      apply (sub_field "Item" (model_fields Models.Item) kvs Models.Item_price).
      apply list_elem_of_In. vm_compute. tauto. }
    destruct (C1_binding_aggregates (HT:=Decimal.text) MoreRoutes.update_item
                MoreSample.put_two_bad [("item_id", "7")] Sample.w0 eq_refl)
      as (H & _).
    destruct (H item [SKey "name"] item [SKey "price"] Hname Hprice ltac:(discriminate))
      as (vs & Hbind & Hrun & _).
    assert (Hvs : bind (HT:=Decimal.text) (r_params MoreRoutes.update_item)
                    [("item_id", "7")] MoreSample.put_two_bad
                  = inr [ Violation LBody "item" [SKey "name"] Missing VNone;
                          Violation LBody "item" [SKey "price"] GreaterThan (VInt 0) ])
      by (vm_compute; reflexivity).
    rewrite Hbind in Hvs. injection Hvs as <-. exact Hrun.
Defined.

(** C2.  On GET /travel_items/{item_id}: a stored record whose [type] is
    "car" is serialized through [CarItem] and the body has no [size]; one
    whose [type] is "plane" is serialized through [PlaneItem] and the body
    has [size].  Whatever result carries the discriminator "car" (or "plane"),
    the body it resolves to has the fields of that variant.  Nothing else in
    the request changes the response. *)
Theorem C2_variant_by_discriminator `{HT : HostText} (req : request) (w : world)
    (item_id : string) (rec : value) :
  method req = "GET" -> path req = ["travel_items"; item_id] ->
  items !! item_id = Some rec ->
  let spec := r_response Routes.read_item_travel in
  (discriminator rec = Some (VStr "car") ->
     run Routes.read_item_travel req w
     = Some (resolve (RType Models.CarItem) rec, [], w)
     /\ body_keys (resolve (RType Models.CarItem) rec) = ["description"; "type"]
     /\ "size" ∉ body_keys (resolve (RType Models.CarItem) rec))
  /\ (discriminator rec = Some (VStr "plane") ->
     run Routes.read_item_travel req w
     = Some (resolve (RType Models.PlaneItem) rec, [], w)
     /\ body_keys (resolve (RType Models.PlaneItem) rec)
        = ["description"; "type"; "size"]
     /\ "size" ∈ body_keys (resolve (RType Models.PlaneItem) rec))
  /\ (forall v body,
        resolve spec v = Success body ->
        (discriminator v = Some (VStr "car") ->
           body_keys (Success body) = ["description"; "type"])
        /\ (discriminator v = Some (VStr "plane") ->
           body_keys (Success body) = ["description"; "type"; "size"]))
  /\ (forall req', method req' = "GET" -> path req' = path req ->
        run Routes.read_item_travel req' w = run Routes.read_item_travel req w).
Proof.
  intros Hm Hp Hrec spec.
  assert (Hne : item_id <> "").
  { apply items_lookup in Hrec as [[-> _]|[-> _]]; discriminate. }
  pose proof (run_read_item_travel req w item_id Hm Hp Hne) as Hrun.
  rewrite Hrec in Hrun.
  split; [|split; [|split]].
  - intros Hd. apply items_lookup in Hrec as [[-> ->]|[-> ->]]; [|discriminate].
    rewrite Hrun. repeat split; try reflexivity.
    vm_compute. intros H. apply list_elem_of_In in H. simpl in H. intuition discriminate.
  - intros Hd. apply items_lookup in Hrec as [[-> ->]|[-> ->]]; [discriminate|].
    rewrite Hrun. repeat split; try reflexivity.
    apply list_elem_of_In. vm_compute. tauto.
  - intros v body Hres. unfold spec in Hres. simpl in Hres.
    split; intros Hd; rewrite (discriminator_selects v _ Hd) in Hres; simpl in Hres;
      by apply resolve_model_keys in Hres.
  - intros req' Hm' Hp'. rewrite Hp in Hp'.
    by rewrite (run_read_item_travel req' w item_id Hm' Hp' Hne), Hrun, Hrec.
Qed.

Lemma C2_witness :
  items !! "item1" = Some car_record
  /\ run (HT:=Decimal.text) Routes.read_item_travel
       (Sample.get ["travel_items"; "item1"] [("type", "plane")]
                   (Some (VDict [("type", VStr "plane"); ("size", VInt 9)]))) Sample.w0
     = Some (Success (VDict [ ("description", VStr "All my friends drive a low rider");
                              ("type", VStr "car") ]), [], Sample.w0)
  /\ run (HT:=Decimal.text) Routes.read_item_travel
       (Sample.get ["travel_items"; "item2"] [] None) Sample.w0
     = Some (Success (VDict [ ("description",
                               VStr "Music is my aeroplane, it's my aeroplane");
                              ("type", VStr "plane"); ("size", VInt 5) ]),
             [], Sample.w0).
Proof.
  split; [reflexivity|]. split.
  - destruct (C2_variant_by_discriminator (HT:=Decimal.text)
                (Sample.get ["travel_items"; "item1"] [("type", "plane")]
                   (Some (VDict [("type", VStr "plane"); ("size", VInt 9)])))
                Sample.w0 "item1" car_record eq_refl eq_refl eq_refl) as (Hcar & _).
    destruct (Hcar eq_refl) as (Hrun & _). exact Hrun.
  - destruct (C2_variant_by_discriminator (HT:=Decimal.text)
                (Sample.get ["travel_items"; "item2"] [] None)
                Sample.w0 "item2" plane_record eq_refl eq_refl eq_refl) as (_ & Hplane & _).
    destruct (Hplane eq_refl) as (Hrun & _). exact Hrun.
Defined.

(** ** Lookup errors and the offer route *)


(** C4.  On GET /offers/{offer_id} with an [offer_id] that is not in the
    store, the handler raises [HTTPException] and returns nothing; the
    response is the 404 with the header [X-Error]; no body is resolved. *)
Theorem C4_offer_not_found `{HT : HostText} (req : request) (w : world) (offer_id : string) :
  method req = "GET" -> path req = ["offers"; offer_id] -> offer_id <> "" ->
  offers !! offer_id = None ->
  (forall c, read_offer [("offer_id", VStr offer_id)] c
             = (c, inr (HTTPException 404 "Offer not found"
                          [("X-Error", "There goes my error")])))
  /\ run Routes.read_offer req w = Some (not_found, [], w)
  /\ status_of not_found = 404
  /\ ("X-Error", "There goes my error") ∈ headers_of not_found
  /\ (forall body ts w', run Routes.read_offer req w <> Some (Success body, ts, w')).
Proof.
  intros Hm Hp Hne Hnone.
  pose proof (run_read_offer req w offer_id Hm Hp Hne) as Hrun. rewrite Hnone in Hrun.
  split; [|split; [|split; [|split]]].
  - intros c. unfold read_offer, str_arg, arg. simpl. by rewrite Hnone.
  - exact Hrun.
  - reflexivity.
  - apply list_elem_of_In. simpl. by left.
  - intros body ts w'. rewrite Hrun. discriminate.
Qed.

Lemma C4_witness :
  offers !! "bar" = None
  /\ run (HT:=Decimal.text) Routes.read_offer Sample.offer_bar Sample.w0
     = Some (not_found, [], Sample.w0).
Proof.
  split; [reflexivity|].
  apply (C4_offer_not_found (HT:=Decimal.text) Sample.offer_bar Sample.w0 "bar"
           eq_refl eq_refl ltac:(discriminate) eq_refl).
Defined.

(** C8.  The store of [read_offer] has the one key "foo", bound to the string
    "The Foo Wrestlers"; the handler returns that string, which does not
    resolve against [Offer]; so a request to GET /offers/{offer_id} ends in
    the 404 (any other key) or in a contract violation ("foo"), never in a
    resolved body. *)
Theorem C8_no_offer_body `{HT : HostText} (req : request) (w : world) (offer_id : string) :
  method req = "GET" -> path req = ["offers"; offer_id] -> offer_id <> "" ->
  (forall k v, offers !! k = Some v -> k = "foo" /\ v = VStr "The Foo Wrestlers")
  /\ (forall c, read_offer [("offer_id", VStr "foo")] c = (c, inl (VStr "The Foo Wrestlers")))
  /\ resolve (RType Models.Offer) (VStr "The Foo Wrestlers") = Fatal ContractViolation
  /\ (offer_id <> "foo" -> run Routes.read_offer req w = Some (not_found, [], w))
  /\ (offer_id = "foo" ->
      run Routes.read_offer req w = Some (Fatal ContractViolation, [], w))
  /\ (forall body ts w', run Routes.read_offer req w <> Some (Success body, ts, w')).
Proof.
  intros Hm Hp Hne.
  pose proof (run_read_offer req w offer_id Hm Hp Hne) as Hrun.
  split; [|split; [|split; [|split; [|split]]]].
  - intros k v. apply offers_lookup.
  - reflexivity.
  - reflexivity.
  - intros Hk. apply offers_lookup_None in Hk. by rewrite Hk in Hrun.
  - intros ->. exact Hrun.
  - intros body ts w'. rewrite Hrun.
    destruct (offers !! offer_id) as [v|] eqn:E; [|discriminate].
    apply offers_lookup in E as [_ ->]. discriminate.
Qed.

Lemma C8_witness :
  run (HT:=Decimal.text) Routes.read_offer Sample.offer_foo Sample.w0
  = Some (Fatal ContractViolation, [], Sample.w0)
  /\ run (HT:=Decimal.text) Routes.read_offer Sample.offer_bar Sample.w0
     = Some (not_found, [], Sample.w0).
Proof.
  split.
  - apply (C8_no_offer_body (HT:=Decimal.text) Sample.offer_foo Sample.w0 "foo"
             eq_refl eq_refl ltac:(discriminate)). reflexivity.
  - apply (C8_no_offer_body (HT:=Decimal.text) Sample.offer_bar Sample.w0 "bar"
             eq_refl eq_refl ltac:(discriminate)). discriminate.
Defined.

(** C9.  On GET /travel_items/{item_id}: the lookup [items[item_id]] succeeds
    exactly for "item1" and "item2"; for any other key the handler raises
    [KeyError], which has no mapper, and the request ends in the generic
    server error (500), not in a 404. *)
Theorem C9_unguarded_lookup `{HT : HostText} (req : request) (w : world) (item_id : string) :
  method req = "GET" -> path req = ["travel_items"; item_id] -> item_id <> "" ->
  (is_Some (items !! item_id) <-> item_id = "item1" \/ item_id = "item2")
  /\ (item_id <> "item1" -> item_id <> "item2" ->
      (forall c, read_item_travel [("item_id", VStr item_id)] c
                 = (c, inr (KeyError item_id)))
      /\ exception_mapper (KeyError item_id) = None
      /\ run Routes.read_item_travel req w = Some (Fatal UnhandledError, [], w)
      /\ status_of (Fatal UnhandledError) = 500)
  /\ (item_id = "item1" \/ item_id = "item2" ->
      exists body, run Routes.read_item_travel req w = Some (Success body, [], w)).
Proof.
  intros Hm Hp Hne.
  pose proof (run_read_item_travel req w item_id Hm Hp Hne) as Hrun.
  split; [|split].
  - split.
    + intros [v Hv]. apply items_lookup in Hv. tauto.
    + intros [->| ->]; eexists; reflexivity.
  - intros H1 H2. assert (Hnone : items !! item_id = None) by by apply items_lookup_None.
    rewrite Hnone in Hrun. repeat split; try done.
    intros c. unfold read_item_travel, str_arg, arg. simpl. by rewrite Hnone.
  - intros [->| ->]; rewrite Hrun; eexists; reflexivity.
Qed.


Lemma C9_witness :
  run (HT:=Decimal.text) Routes.read_item_travel Sample.travel_item3 Sample.w0
  = Some (Fatal UnhandledError, [], Sample.w0).
Proof.
  apply (C9_unguarded_lookup (HT:=Decimal.text) Sample.travel_item3 Sample.w0 "item3"
           eq_refl eq_refl ltac:(discriminate)); discriminate.
Defined.

(** ** Background tasks *)

Lemma run_send_notification `{HT : HostText} (req : request) (w : world) (email : string) :
  method req = "POST" -> path req = ["send-notification"; email] -> email <> "" ->
  let q := from_option VStr VNone (last (values_of "q" (query req))) in
  run Routes.send_notification req w
  = Some (Success sent,
          ((if truthy q then [WriteLog ("found query: " ++ fmt q ++ nl)] else [])
           ++ [WriteLog ("message to " ++ email ++ nl)])%list, w).
Proof.
  destruct req as [m p qs fs b]. simpl. intros -> -> Hne.
  apply String.eqb_neq in Hne. unfold run, matches. simpl. rewrite Hne. simpl.
  unfold bind, param_violations, validate_param, raw_of, multi, wire_name, p_name.
  simpl.
  destruct (last (values_of "q" qs)) as [q|] eqn:Eq; simpl.
  - unfold check. simpl. unfold send_notification_endpoint, arg. simpl.
    unfold get_query. simpl.
    destruct (String.eqb q ""); reflexivity.
  - reflexivity.
Qed.


(** C3 (as the code has it).  On POST /send-notification/{email} with a
    non-empty query value [q], two tasks are enqueued: first the one of
    [get_query], then the one of the handler; they differ; and once the
    response is final the log holds the line of each exactly once more, in
    that order. *)
Theorem C3_two_tasks `{HT : HostText} (req : request) (w : world) (email q : string) :
  method req = "POST" -> path req = ["send-notification"; email] -> email <> "" ->
  last (values_of "q" (query req)) = Some q -> q <> "" ->
  let found := "found query: " ++ q ++ nl in
  let told := "message to " ++ email ++ nl in
  run Routes.send_notification req w
  = Some (Success sent, [WriteLog found; WriteLog told], w)
  /\ WriteLog found <> WriteLog told
  /\ serve Routes.send_notification req w
     = Some (Success sent, World (stdout w) ((log_txt w ++ found) ++ told)).
Proof.
  intros Hm Hp Hne Hq Hq' found told.
  pose proof (run_send_notification req w email Hm Hp Hne) as Hrun.
  rewrite Hq in Hrun. simpl in Hrun.
  apply String.eqb_neq in Hq'. rewrite Hq' in Hrun. simpl in Hrun.
  split; [exact Hrun|]. split; [discriminate|].
  unfold serve. rewrite Hrun. reflexivity.
Qed.

Lemma C3_witness :
  run (HT:=Decimal.text) Routes.send_notification Sample.notify Sample.w0
  = Some (Success sent,
          [WriteLog ("found query: x" ++ nl); WriteLog ("message to a@b.c" ++ nl)],
          Sample.w0)
  /\ serve (HT:=Decimal.text) Routes.send_notification Sample.notify Sample.w0
     = Some (Success sent,
             World [] (("found query: x" ++ nl) ++ ("message to a@b.c" ++ nl))).
Proof.
  destruct (C3_two_tasks (HT:=Decimal.text) Sample.notify Sample.w0 "a@b.c" "x"
              eq_refl eq_refl ltac:(discriminate) eq_refl ltac:(discriminate))
    as (Hrun & _ & Hserve).
  split; [exact Hrun|exact Hserve].
Defined.

(** With [q] present the request does not enqueue exactly one task. *)
Lemma C3_counterexample :
  last (values_of "q" (query Sample.notify)) = Some "x"
  /\ exists ts,
       run (HT:=Decimal.text) Routes.send_notification Sample.notify Sample.w0
       = Some (Success sent, ts, Sample.w0)
       /\ ts = [WriteLog ("found query: x" ++ nl); WriteLog ("message to a@b.c" ++ nl)]
       /\ length ts <> 1%nat.
Proof.
  split; [reflexivity|]. eexists. split; [reflexivity|]. split; [reflexivity|].
  simpl. lia.
Qed.

Lemma send_notification_without_query `{HT : HostText} (req : request) (w : world)
    (email : string) :
  method req = "POST" -> path req = ["send-notification"; email] -> email <> "" ->
  last (values_of "q" (query req)) = None \/ last (values_of "q" (query req)) = Some "" ->
  run Routes.send_notification req w
  = Some (Success sent, [WriteLog ("message to " ++ email ++ nl)], w).
Proof.
  intros Hm Hp Hne Hq.
  rewrite (run_send_notification req w email Hm Hp Hne).
  by destruct Hq as [-> | ->].
Qed.

(** ** Projection of the response *)

(** C5.  On POST /user/ with a body that has a string [username], a string
    [password] and an absent, null or string [full_name]: the handler gets the
    whole [UserIn]; the response body has exactly the fields of [BaseUser],
    with the [username] and [full_name] of the request; [password] is not in
    it. *)
Theorem C5_password_dropped `{HT : HostText} (req : request) (w : world)
    (kvs : list (string * value)) (u p : string) :
  method req = "POST" -> path req = ["user"; ""] -> body req = Some (VDict kvs) ->
  dict_get "username" kvs = Some (VStr u) ->
  dict_get "password" kvs = Some (VStr p) ->
  (dict_get "full_name" kvs = None \/ dict_get "full_name" kvs = Some VNone
   \/ exists f, dict_get "full_name" kvs = Some (VStr f)) ->
  let full_name := default VNone (dict_get "full_name" kvs) in
  let out := Success (VDict [ ("username", VStr u); ("full_name", full_name) ]) in
  bind (r_params Routes.create_user) [] req
  = inl [ ("user", VDict [ ("username", VStr u); ("full_name", full_name);
                           ("password", VStr p) ]) ]
  /\ run Routes.create_user req w = Some (out, [], w)
  /\ body_keys out = field_names (model_fields Models.BaseUser)
  /\ "password" ∉ body_keys out.
Proof.
  destruct req as [m pa qs fs b]. simpl. intros -> -> -> Hu Hp Hf.
  assert (Hbind : bind (r_params Routes.create_user) []
                    (Request "POST" ["user"; ""] qs fs (Some (VDict kvs)))
                  = inl [ ("user", VDict [ ("username", VStr u);
                                           ("full_name", default VNone (dict_get "full_name" kvs));
                                           ("password", VStr p) ]) ]).
  { unfold bind, param_violations, validate_param, raw_of, wire_name, p_name. simpl.
    rewrite Hu, Hp. unfold check. simpl.
    destruct Hf as [-> | [-> | [f ->]]]; reflexivity. }
  split; [exact Hbind|]. split; [|split].
  - rewrite (run_bound Routes.create_user
               (Request "POST" ["user"; ""] qs fs (Some (VDict kvs))) w [] eq_refl _ Hbind).
    simpl.
    unfold resolve_type. simpl. unfold check. simpl.
    destruct Hf as [-> | [-> | [f ->]]]; reflexivity.
  - reflexivity.
  - intros H. apply list_elem_of_In in H. simpl in H. intuition discriminate.
Qed.

Lemma C5_witness :
  run (HT:=Decimal.text) Routes.create_user Sample.new_user Sample.w0
  = Some (Success (VDict [ ("username", VStr "rick"); ("full_name", VNone) ]),
          [], Sample.w0).
Proof.
  apply (C5_password_dropped (HT:=Decimal.text) Sample.new_user Sample.w0
           [ ("username", VStr "rick"); ("password", VStr "wubba") ] "rick" "wubba"
           eq_refl eq_refl eq_refl eq_refl eq_refl (or_introl eq_refl)).
Defined.

(** C10 (as the code has it).  Two POST /login/ requests with the same
    non-empty [user-name] and any two non-empty passwords get the same
    response: the body holds the username only. *)
Theorem C10_login_ignores_password `{HT : HostText} (r1 r2 : request) (w : world)
    (u p1 p2 : string) :
  method r1 = "POST" -> path r1 = ["login"; ""] ->
  method r2 = "POST" -> path r2 = ["login"; ""] ->
  last (values_of "user-name" (form r1)) = Some u ->
  last (values_of "user-name" (form r2)) = Some u ->
  last (values_of "password" (form r1)) = Some p1 ->
  last (values_of "password" (form r2)) = Some p2 ->
  u <> "" -> p1 <> "" -> p2 <> "" ->
  run Routes.login r1 w = Some (Success (VDict [ ("username", VStr u) ]), [], w)
  /\ run Routes.login r2 w = run Routes.login r1 w
  /\ serve Routes.login r2 w = serve Routes.login r1 w.
Proof.
  assert (H : forall r p, method r = "POST" -> path r = ["login"; ""] ->
            last (values_of "user-name" (form r)) = Some u ->
            last (values_of "password" (form r)) = Some p ->
            u <> "" -> p <> "" ->
            run Routes.login r w = Some (Success (VDict [ ("username", VStr u) ]), [], w)).
  { intros [m pa qs fs b] p. simpl. intros -> -> Hu Hp Hue Hpe.
    apply String.eqb_neq in Hue. apply String.eqb_neq in Hpe.
    unfold run, matches. simpl.
    unfold bind, param_violations, validate_param, raw_of, form_value, wire_name, p_name.
    simpl. rewrite Hu, Hp, Hue, Hpe. reflexivity. }
  intros. rewrite (H r1 p1), (H r2 p2) by done. split; [done|]. split; [done|].
  unfold serve. by rewrite (H r1 p1), (H r2 p2).
Qed.

Lemma C10_witness :
  run (HT:=Decimal.text) Routes.login Sample.login_b Sample.w0
  = run (HT:=Decimal.text) Routes.login Sample.login_a Sample.w0
  /\ run (HT:=Decimal.text) Routes.login Sample.login_a Sample.w0
     = Some (Success (VDict [ ("username", VStr "rick") ]), [], Sample.w0).
Proof.
  destruct (C10_login_ignores_password (HT:=Decimal.text) Sample.login_a Sample.login_b
              Sample.w0 "rick" "wubba" "lubba"
              eq_refl eq_refl eq_refl eq_refl eq_refl eq_refl eq_refl eq_refl
              ltac:(discriminate) ltac:(discriminate) ltac:(discriminate))
    as (H1 & H2 & _).
  split; [exact H2|exact H1].
Defined.

(** With one password empty the two answers differ: the empty one is a
    missing field. *)
Lemma C10_counterexample :
  last (values_of "user-name" (form Sample.login_a))
  = last (values_of "user-name" (form Sample.login_empty))
  /\ last (values_of "password" (form Sample.login_a)) = Some "wubba"
  /\ last (values_of "password" (form Sample.login_empty)) = Some ""
  /\ run (HT:=Decimal.text) Routes.login Sample.login_a Sample.w0
     = Some (Success (VDict [ ("username", VStr "rick") ]), [], Sample.w0)
  /\ run (HT:=Decimal.text) Routes.login Sample.login_empty Sample.w0
     = Some (Invalid [Violation LForm "password" [] Missing VNone], [], Sample.w0)
  /\ run (HT:=Decimal.text) Routes.login Sample.login_empty Sample.w0
     <> run (HT:=Decimal.text) Routes.login Sample.login_a Sample.w0.
Proof.
  repeat split; try reflexivity. discriminate.
Qed.

(** ** Round trip through the wire form *)

Lemma stable_model `{HT : HostText} n fs :
  stable (TModel n fs)
  <-> NoDup (field_names fs) /\ Forall (fun f => stable (f_type f) /\ default_ok f) fs.
Proof.
  simpl. apply and_iff_compat_l.
  induction fs as [|f fs IH]; simpl.
  - split; [constructor|done].
  - rewrite Forall_cons, IH. done.
Qed.

Lemma check_inl c raw v w : check c raw v = inl w -> w = v /\ violations c v = [].
Proof.
  unfold check. destruct (violations c v); [|discriminate]. by intros [= <-].
Qed.

Lemma check_ok c raw v : violations c v = [] -> check c raw v = inl v.
Proof. unfold check. by intros ->. Qed.

Lemma under_inl s r v : under s r = inl v <-> r = inl v.
Proof. destruct r; simpl; split; congruence. Qed.

Lemma dict_get_zip (ks : list string) (xs : list value) (i : nat) k x :
  NoDup ks -> ks !! i = Some k -> xs !! i = Some x ->
  dict_get k (zip ks xs) = Some x.
Proof.
  intros Hnd. revert xs i. induction Hnd as [|k0 ks Hnotin Hnd IH]; intros xs i Hk Hx.
  - by rewrite lookup_nil in Hk.
  - destruct xs as [|x0 xs]; [by rewrite lookup_nil in Hx|].
    destruct i as [|i]; simpl in *.
    + injection Hk as ->. injection Hx as ->. by rewrite String.eqb_refl.
    + destruct (String.eqb k k0) eqn:E.
      * apply String.eqb_eq in E as ->. exfalso. apply Hnotin.
        by eapply list_elem_of_lookup_2.
      * by eapply IH.
Qed.

(** ** Reading an instance back *)

Section Echo.
Context {HT : HostText}.

(** A rendering of instances that [coerce] reads back: the identity, or
    [jsonable]. *)
Variable g : value -> value.
Hypothesis g_atom : forall v, atom v = true -> g v = v.
Hypothesis g_list : forall l, g (VList l) = VList (map g l).
Hypothesis g_dict : forall kvs, g (VDict kvs) = VDict (map (fun kv => (kv.1, g kv.2)) kvs).
Hypothesis g_set : forall s, g (VSet s) = VSet s \/ g (VSet s) = VList (map VStr (elements s)).

Lemma g_none v : g v = VNone -> v = VNone.
Proof.
  destruct v; try (rewrite g_atom by done; done).
  - by rewrite g_list.
  - by destruct (g_set s) as [-> | ->].
  - by rewrite g_dict.
Qed.

Lemma to_float_finite raw f : to_float raw = Some f -> Num.is_finite f = true.
Proof.
  assert (H : forall x, finite x = Some f -> Num.is_finite f = true).
  { intros x. unfold finite. destruct (Num.is_finite x) eqn:E; [|discriminate].
    by intros [= <-]. }
  destruct raw; simpl; try discriminate; try apply H.
  destruct (float_of_text s); simpl; [apply H|discriminate].
Qed.

Lemma gather_indexed_inl (F : value -> result) k l vs :
  gather (map (fun ir : nat * value => under (SIdx ir.1) (F ir.2)) (indexed k l)) = inl vs ->
  Forall2 (fun r v => F r = inl v) l vs.
Proof.
  revert k vs. induction l as [|r l IH]; intros k vs; simpl.
  - intros [= <-]. constructor.
  - destruct (under _ _) as [v|] eqn:E1; destruct (gather _) as [vs'|] eqn:E2; try discriminate.
    intros [= <-]. constructor; [by apply under_inl in E1|by eapply IH].
Qed.

Lemma gather_indexed_build (F : value -> result) k l vs :
  Forall2 (fun r v => F r = inl v) l vs ->
  gather (map (fun ir : nat * value => under (SIdx ir.1) (F ir.2)) (indexed k l)) = inl vs.
Proof.
  intros H. revert k. induction H as [|r v l vs Hr _ IH]; intros k; simpl; [done|].
  by rewrite Hr, IH.
Qed.

Lemma mapM_as_str ss : mapM as_str (map VStr ss) = Some ss.
Proof. induction ss as [|s ss IH]; [done|]. simpl. rewrite IH. done. Qed.

Lemma coerce_echo t :
  stable t -> forall c raw v, coerce t c raw = inl v -> coerce t c (g v) = inl v.
Proof.
  induction t using ftype_rect'; intros Hst c raw v.
  - simpl. destruct (to_int raw); [|discriminate]. intros Hc.
    apply check_inl in Hc as [-> Hv]. rewrite g_atom by done. simpl. by apply check_ok.
  - simpl. destruct (to_float raw) as [f|] eqn:Ef; [|discriminate]. intros Hc.
    apply check_inl in Hc as [-> Hv]. rewrite g_atom by done. simpl.
    unfold finite. rewrite (to_float_finite _ _ Ef). by apply check_ok.
  - simpl. destruct raw; try discriminate. intros Hc.
    apply check_inl in Hc as [-> Hv]. rewrite g_atom by done. by apply check_ok.
  - simpl. destruct raw; try discriminate.
    destruct (is_http_url s) eqn:Eu; [|discriminate]. intros Hc.
    apply check_inl in Hc as [-> Hv]. rewrite g_atom by done. rewrite Eu. by apply check_ok.
  - intros Hc.
    assert (Hv : v = VNone \/ coerce t c raw = inl v).
    { simpl in Hc. destruct raw; try (by right). left. congruence. }
    destruct Hv as [-> | Hv]; [by rewrite g_atom|].
    specialize (IHt Hst c raw v Hv). simpl.
    destruct (g v) eqn:Eg; try exact IHt.
    apply g_none in Eg. by rewrite Eg.
  - simpl. destruct raw; try discriminate.
    destruct (gather _) as [vs|] eqn:G; [|discriminate]. intros Hc.
    apply check_inl in Hc as [-> Hv]. rewrite g_list.
    apply gather_indexed_inl in G.
    rewrite (gather_indexed_build _ 0 (map g vs) vs).
    + by apply check_ok.
    + apply Forall2_fmap_l. clear Hv.
      induction G as [|r v l vs Hr _ IH]; constructor; [|exact IH].
      by eapply IHt.
  - simpl. intros Hc.
    assert (Hs : exists s, v = VSet s /\ violations c (VSet s) = []).
    { destruct raw; try discriminate.
      - destruct (mapM as_str l); [|discriminate].
        apply check_inl in Hc as [-> Hv]. eauto.
      - apply check_inl in Hc as [-> Hv]. eauto. }
    destruct Hs as (s & -> & Hv).
    destruct (g_set s) as [-> | ->].
    + by apply check_ok.
    + rewrite mapM_as_str, list_to_set_elements_L. by apply check_ok.
  - destruct raw; try discriminate. rewrite coerce_model.
    destruct (gather _) as [vs|] eqn:G; [|discriminate]. intros [= <-].
    apply stable_model in Hst as [Hnd Hfs].
    rewrite g_dict, coerce_model.
    assert (Hlen : length vs = length fs).
    { apply gather_length in G. rewrite G. unfold validate_fields. by rewrite length_map. }
    apply gather_inl in G.
    replace (validate_fields fs (map (fun kv => (kv.1, g kv.2)) (zip (field_names fs) vs)))
      with (map inl vs : list result); [by rewrite gather_map_inl|].
    apply list_eq. intros i. unfold validate_fields in *.
    rewrite !list_lookup_fmap.
    destruct (fs !! i) as [f|] eqn:Ef; simpl.
    + destruct (vs !! i) as [x|] eqn:Ex; simpl.
      2:{ apply lookup_ge_None in Ex. apply lookup_lt_Some in Ef. lia. }
      f_equal. symmetry. apply under_inl.
      assert (Hi : under (SKey (f_name f)) (validate f (dict_get (f_name f) kvs)) = inl x).
      { apply (f_equal (fun l => l !! i)) in G. rewrite !list_lookup_fmap, Ef, Ex in G.
        simpl in G. congruence. }
      apply under_inl in Hi.
      assert (Hget : dict_get (f_name f)
                       (map (fun kv : string * value => (kv.1, g kv.2)) (zip (field_names fs) vs))
                     = Some (g x)).
      { replace (map (fun kv : string * value => (kv.1, g kv.2)) (zip (field_names fs) vs))
          with (zip (field_names fs) (map g vs)).
        - apply (dict_get_zip _ _ i); [done| |].
          + unfold field_names. by rewrite list_lookup_fmap, Ef.
          + by rewrite list_lookup_fmap, Ex.
        - clear. generalize (field_names fs). intros ks. revert vs.
          induction ks as [|k ks IH]; intros [|v vs]; simpl; try done. by rewrite IH. }
      rewrite Hget. simpl.
      rewrite Forall_forall in H, Hfs.
      assert (Hin : f ∈ fs) by by eapply list_elem_of_lookup_2.
      destruct (Hfs f Hin) as [Hstf Hdef].
      destruct (dict_get (f_name f) kvs) as [r|]; simpl in Hi.
      * by apply (H f Hin Hstf _ r).
      * unfold default_ok in Hdef. destruct (f_default f) as [d|]; [|discriminate].
        injection Hi as <-. destruct Hdef as [Ha Hd]. by rewrite g_atom.
    + destruct (vs !! i) eqn:Ex; [|done].
      apply lookup_ge_None in Ef. apply lookup_lt_Some in Ex. lia.
Qed.

End Echo.

Lemma atom_jsonable v : atom v = true -> jsonable v = v.
Proof. by destruct v. Qed.

Lemma pair_map_id (kvs : list (string * value)) :
  map (fun kv : string * value => (kv.1, kv.2)) kvs = kvs.
Proof. induction kvs as [|[k v] kvs IH]; [done|]. simpl. by rewrite IH. Qed.

Section RoundTrip.
Context {HT : HostText}.

Lemma coerce_jsonable t :
  stable t -> forall c raw v, coerce t c raw = inl v -> coerce t c (jsonable v) = inl v.
Proof.
  apply (coerce_echo jsonable); [apply atom_jsonable|done|done|by right].
Qed.

Lemma coerce_instance t :
  stable t -> forall c raw v, coerce t c raw = inl v -> coerce t c v = inl v.
Proof.
  apply (coerce_echo (fun v => v)); [done| | |by left].
  - intros l. by rewrite map_id.
  - intros kvs. by rewrite pair_map_id.
Qed.

Lemma stable_Offer : stable Models.Offer.
Proof.
  cbn. repeat split; try reflexivity; by apply (bool_decide_unpack _).
Qed.

Lemma bind_single_body (n : string) (t : ftype) pp (req : request) (raw v : value) :
  body req = Some raw -> coerce t unconstrained raw = inl v ->
  bind [Param LBody None false (required n t)] pp req = inl [(n, v)].
Proof.
  intros Hb Hc. unfold bind, param_violations, validate_param, raw_of, validate.
  cbn [p_loc p_field p_embed body_params List.filter length Nat.eqb negb andb
       required f_type f_cons f_default flat_map app].
  rewrite Hb, Hc. reflexivity.
Qed.

End RoundTrip.

(** C7.  For every TypedInstance of [Offer]: the resolver serializes it to its
    JSON form, and validating that form against [Offer] again gives the same
    instance.  POST /offers/ is a case of it: the response to a body that
    binds to the instance is the JSON form of the instance, and a request
    with that response as its body binds to the same instance. *)
Theorem C7_offer_roundtrip `{HT : HostText} (inst : value) :
  typed_instance Models.Offer inst ->
  resolve (RType Models.Offer) inst = Success (jsonable inst)
  /\ coerce Models.Offer unconstrained (jsonable inst) = inl inst
  /\ (forall req w raw,
        method req = "POST" -> path req = ["offers"; ""] -> body req = Some raw ->
        coerce Models.Offer unconstrained raw = inl inst ->
        bind (r_params Routes.create_offer) [] req = inl [("offer", inst)]
        /\ run Routes.create_offer req w = Some (Success (jsonable inst), [], w)
        /\ bind (r_params Routes.create_offer) []
             (Request "POST" ["offers"; ""] [] [] (Some (jsonable inst)))
           = inl [("offer", inst)]).
Proof.
  intros [raw0 H0].
  pose proof (coerce_instance _ stable_Offer _ _ _ H0) as Hid.
  pose proof (coerce_jsonable _ stable_Offer _ _ _ H0) as Hjs.
  assert (Hres : resolve (RType Models.Offer) inst = Success (jsonable inst)).
  { unfold resolve, resolve_type. by rewrite Hid. }
  split; [exact Hres|]. split; [exact Hjs|].
  intros [m p qs fs b] w raw. cbn [method path body]. intros -> -> -> Hc.
  pose proof (bind_single_body "offer" Models.Offer []
                (Request "POST" ["offers"; ""] qs fs (Some raw)) raw inst eq_refl Hc) as Hb.
  split; [exact Hb|]. split.
  - rewrite (run_bound Routes.create_offer
               (Request "POST" ["offers"; ""] qs fs (Some raw)) w [] eq_refl _ Hb).
    cbn [Routes.create_offer r_handler r_response].
    unfold create_offer, arg. cbn [dict_get String.eqb Ascii.eqb Bool.eqb default mret M_ret ret].
    unfold id. by rewrite Hres.
  - by apply (bind_single_body "offer" Models.Offer [] _ (jsonable inst) inst).
Qed.


Lemma C7_witness :
  coerce (HT:=Decimal.text) Models.Offer unconstrained Sample.echoed_offer = inl Sample.offer_instance
  /\ resolve (HT:=Decimal.text) (RType Models.Offer) Sample.offer_instance
     = Success (jsonable Sample.offer_instance)
  /\ coerce (HT:=Decimal.text) Models.Offer unconstrained (jsonable Sample.offer_instance)
     = inl Sample.offer_instance.
Proof.
  assert (H : coerce (HT:=Decimal.text) Models.Offer unconstrained Sample.echoed_offer
              = inl Sample.offer_instance) by (vm_compute; reflexivity).
  split; [exact H|].
  destruct (C7_offer_roundtrip (HT:=Decimal.text) Sample.offer_instance (ex_intro _ _ H))
    as (H1 & H2 & _).
  split; [exact H1|exact H2].
Defined.

(** * More of main.py *)

(** ** The unicorn route *)

(** GET /unicorns/{name} answers 418 with the rainbow message exactly when
    [name] is "yolo" (case matters), and 200 with the name echoed otherwise. *)
Theorem unicorn_yolo_only `{HT : HostText} (req : request) (w : world) (name : string) :
  method req = "GET" -> path req = ["unicorns"; name] -> name <> "" ->
  (name = "yolo" ->
     run MoreRoutes.read_unicorn req w
     = Some (Mapped 418 []
               (VDict [ ("message",
                         VStr "Oops! yolo did something. There goes a rainbow...") ]),
             [], w))
  /\ (name <> "yolo" ->
     run MoreRoutes.read_unicorn req w
     = Some (Success (VDict [ ("unicorn_name", VStr name) ]), [], w))
  /\ (forall o ts w', run MoreRoutes.read_unicorn req w = Some (o, ts, w') ->
        (status_of o = 418 <-> name = "yolo") /\ (status_of o = 200 <-> name <> "yolo")).
Proof.
  destruct req as [m p qs fs b]. simpl. intros -> -> Hne.
  apply String.eqb_neq in Hne.
  assert (Hrun : run MoreRoutes.read_unicorn (Request "GET" ["unicorns"; name] qs fs b) w
                 = Some (if String.eqb name "yolo"
                         then map_exception (UnicornException name)
                         else Success (VDict [ ("unicorn_name", VStr name) ]), [], w)).
  { unfold run, matches. simpl. rewrite Hne. simpl.
    unfold read_unicorn, str_arg, arg. simpl. by destruct (String.eqb name "yolo"). }
  split; [|split].
  - intros ->. by rewrite Hrun.
  - intros Hn. apply String.eqb_neq in Hn. by rewrite Hrun, Hn.
  - intros o ts w'. rewrite Hrun. destruct (String.eqb name "yolo") eqn:E.
    + apply String.eqb_eq in E. intros [= <- _ _]. simpl. split; split; try done.
    + apply String.eqb_neq in E. intros [= <- _ _]. simpl. split; split; try done.
Qed.

(** ** The search handler *)

(** [read_items] always returns the two fixed items first, then one entry per
    argument that is truthy, in the order q, ads_id, User-Agent, X-Token
    values; a [None], an empty string or an empty list leaves no entry, so no
    value of the result is falsy and no key repeats. *)

Theorem read_items_keys (a : kwargs) (c : ctx) :
  let found := [ ("items", VList [ VDict [("item_id", VStr "Foo")];
                                   VDict [("item_id", VStr "Bar")] ]) ] in
  let results :=
    (found ++ keep "q" (arg "q" a) ++ keep "ads_id" (arg "ads_id" a)
     ++ keep "User-Agent" (arg "user_agent" a)
     ++ keep "X-Token values" (arg "x_token" a))%list in
  read_items a c = (c, inl (VDict results))
  /\ NoDup (dict_keys results)
  /\ (forall k v, (k, v) ∈ results -> truthy v = true)
  /\ (length results
      = 1 + length (List.filter truthy
                      [arg "q" a; arg "ads_id" a; arg "user_agent" a; arg "x_token" a]))%nat.
Proof.
  intros found results. subst results found. unfold read_items, keep.
  destruct (truthy (arg "q" a)) eqn:E1, (truthy (arg "ads_id" a)) eqn:E2,
    (truthy (arg "user_agent" a)) eqn:E3, (truthy (arg "x_token" a)) eqn:E4;
    simpl; rewrite ?E1, ?E2, ?E3, ?E4; simpl;
    (split; [reflexivity|]); (split; [by apply (bool_decide_unpack _)|]);
    (split; [|reflexivity]);
    intros k v Hin; apply list_elem_of_In in Hin; simpl in Hin;
    repeat (destruct Hin as [[= <- <-]|Hin]; [done|]); done.
Qed.

(** ** The log file *)


Lemma append_cons (ch : ascii) (s t : string) : String ch s ++ t = String ch (s ++ t).
Proof. reflexivity. Qed.

Lemma append_nil_r (s : string) : s ++ "" = s.
Proof. induction s as [|ch s IH]; [done|]. by rewrite append_cons, IH. Qed.

Lemma append_assoc (s t u : string) : (s ++ t) ++ u = s ++ (t ++ u).
Proof. induction s as [|ch s IH]; [done|]. by rewrite !append_cons, IH. Qed.

Lemma prefix_append (s t : string) : String.prefix s (s ++ t) = true.
Proof.
  induction s as [|ch s IH]; [by destruct t|].
  rewrite append_cons. simpl. rewrite IH. by destruct (Ascii.ascii_dec ch ch).
Qed.

(** Running queued [write_log] tasks appends their messages to log.txt in
    queue order and changes nothing else: the old content stays as a prefix,
    what was printed is untouched, and draining two queues one after the other
    is draining their concatenation. *)
Theorem drain_appends (ts : list task) (w : world) :
  log_txt (drain ts w) = log_txt w ++ messages ts
  /\ stdout (drain ts w) = stdout w
  /\ String.prefix (log_txt w) (log_txt (drain ts w)) = true
  /\ (forall ts', drain (ts ++ ts') w = drain ts' (drain ts w)).
Proof.
  assert (Hlog : forall ts w, log_txt (drain ts w) = log_txt w ++ messages ts).
  { clear. induction ts as [|[m] ts IH]; intros w; simpl.
    - by rewrite append_nil_r.
    - unfold drain in IH. rewrite IH. simpl. by rewrite append_assoc. }
  split; [apply Hlog|]. split; [|split].
  - revert w. induction ts as [|[m] ts IH]; intros w; simpl; [done|].
    unfold drain in IH. by rewrite IH.
  - rewrite Hlog. apply prefix_append.
  - intros ts'. unfold drain. by rewrite fold_left_app.
Qed.

(** POST /send-notification/{email} without a query value, or with an empty
    one, enqueues the handler's task only, and the log grows by that one
    line. *)
Theorem notify_without_query `{HT : HostText} (req : request) (w : world) (email : string) :
  method req = "POST" -> path req = ["send-notification"; email] -> email <> "" ->
  last (values_of "q" (query req)) = None \/ last (values_of "q" (query req)) = Some "" ->
  let told := "message to " ++ email ++ nl in
  run Routes.send_notification req w = Some (Success sent, [WriteLog told], w)
  /\ serve Routes.send_notification req w
     = Some (Success sent, World (stdout w) (log_txt w ++ told)).
Proof.
  intros Hm Hp Hne Hq told.
  assert (Hrun : run Routes.send_notification req w = Some (Success sent, [WriteLog told], w)).
  { rewrite (run_send_notification req w email Hm Hp Hne). by destruct Hq as [-> | ->]. }
  split; [exact Hrun|]. unfold serve. by rewrite Hrun.
Qed.

(** ** Route table *)

Lemma matches_key (r : route) (req : request) pp l rest :
  matches r req = Some pp -> r_path r = Lit l :: rest ->
  method req = r_method r /\ exists tl, path req = l :: tl.
Proof.
  unfold matches. destruct (String.eqb (r_method r) (method req)) eqn:E; [|discriminate].
  apply String.eqb_eq in E. intros Hm Hp. rewrite Hp in Hm. split; [done|].
  destruct (path req) as [|x tl]; [discriminate|]. simpl in Hm.
  destruct (String.eqb l x) eqn:E'; [|discriminate].
  apply String.eqb_eq in E'. subst. eauto.
Qed.

(** No request matches two of the modelled routes; in particular the two
    functions that main.py both names [read_item] answer different paths. *)
Theorem routes_disjoint (i j : nat) (r1 r2 : route) (req : request) :
  MoreRoutes.table !! i = Some r1 -> MoreRoutes.table !! j = Some r2 -> i <> j ->
  is_Some (matches r1 req) -> matches r2 req = None.
Proof.
  intros H1 H2 Hij [pp1 Hm1].
  destruct (matches r2 req) as [pp2|] eqn:Hm2; [|done]. exfalso. apply Hij.
  assert (Hlit : forall r, r ∈ MoreRoutes.table ->
            exists l rest, r_path r = Lit l :: rest).
  { intros r Hr. apply list_elem_of_In in Hr. simpl in Hr.
    repeat (destruct Hr as [<-|Hr]; [simpl; eauto|]). done. }
  destruct (Hlit r1) as (l1 & rest1 & Hp1); [by eapply list_elem_of_lookup_2|].
  destruct (Hlit r2) as (l2 & rest2 & Hp2); [by eapply list_elem_of_lookup_2|].
  destruct (matches_key r1 req pp1 l1 rest1 Hm1 Hp1) as (Hme1 & tl1 & Hpa1).
  destruct (matches_key r2 req pp2 l2 rest2 Hm2 Hp2) as (Hme2 & tl2 & Hpa2).
  assert (Hk : route_key r1 = route_key r2).
  { unfold route_key. rewrite Hp1, Hp2, <- Hme1, <- Hme2. rewrite Hpa1 in Hpa2.
    by injection Hpa2 as -> _. }
  assert (Hnd : NoDup (map route_key MoreRoutes.table)) by by apply (bool_decide_unpack _).
  eapply (NoDup_lookup _ i j (route_key r1) Hnd).
  - by rewrite list_lookup_fmap, H1.
  - by rewrite list_lookup_fmap, H2, Hk.
Qed.

(** ** The item route on valid input *)

(** Once binding succeeds, GET /items/{item_id} prints the four bound values
    and answers with the same two items whatever the values are. *)
Theorem read_item_fixed_body `{HT : HostText} (req : request)
    (pp : list (string * string)) (w : world) (a : kwargs) :
  matches Routes.read_item req = Some pp ->
  bind (r_params Routes.read_item) pp req = inl a ->
  let info := VDict [ ("item_id", arg "item_id" a); ("q", arg "q" a);
                      ("size", arg "size" a); ("importance", arg "importance" a) ] in
  run Routes.read_item req w
  = Some (Success portal_and_plumbus, [], World (stdout w ++ [info]) (log_txt w)).
Proof.
  intros Hm Hb info. rewrite (run_bound _ _ _ _ Hm a Hb). reflexivity.
Qed.

Lemma int_ge_zero (n : Z) : Num.geb (Num.NInt n) (Num.NInt 0) = true <-> 0 <= n.
Proof.
  unfold Num.geb, Num.compare, Num.fin_compare. cbn [Num.xnum_of].
  change (2 ^ (0 - Z.min 0 0)) with 1. change (0 * 1) with 0. rewrite Z.mul_1_r.
  destruct (Z.compare_spec n 0); split; intros; try done; lia.
Qed.

Lemma int_lt_1e7 (n : Z) :
  Num.ltb (Num.NInt n) (Num.NFloat Num.f1e7) = true <-> n < 10000000.
Proof.
  unfold Num.ltb, Num.compare, Num.fin_compare, Num.f1e7. cbn [Num.xnum_of].
  change (2 ^ (0 - Z.min 0 (-29))) with 536870912.
  change (5368709120000000 * 2 ^ (-29 - Z.min 0 (-29))) with 5368709120000000.
  destruct (Z.compare_spec (n * 536870912) 5368709120000000);
    split; intros; try done; lia.
Qed.

Section Accepts.
Context {HT : HostText}.

Lemma bind_ok_iff ps pp req :
  (exists a, bind ps pp req = inl a)
  <-> Forall (fun p => is_ok (validate_param ps pp req p) = true) ps.
Proof.
  split.
  - intros [a Ha]. apply Forall_forall. intros p Hp.
    destruct (is_ok (validate_param ps pp req p)) eqn:E; [done|].
    by rewrite (bind_fails ps pp req p Hp E) in Ha.
  - intros Hall. unfold bind.
    assert (Hnil : forall l, Forall (fun p => is_ok (validate_param ps pp req p) = true) l ->
              flat_map (param_violations ps pp req) l = []).
    { induction 1 as [|p l Hp _ IH]; simpl; [done|]. rewrite IH, app_nil_r.
      unfold param_violations. by destruct (validate_param ps pp req p). }
    rewrite (Hnil ps Hall). eauto.
Qed.

Lemma ok_item_id (seg : string) :
  is_ok (validate (p_field Routes.item_id) (Some (VStr seg))) = true
  <-> exists n, int_of_text seg = Some n /\ 0 <= n < 10000000.
Proof.
  simpl. destruct (int_of_text seg) as [n|]; simpl.
  - unfold check, violations, violated. simpl.
    pose proof (int_ge_zero n) as H1. pose proof (int_lt_1e7 n) as H2.
    destruct (Num.geb _ _), (Num.ltb _ _); simpl; split.
    all: try (intros _; exists n; split; [done|]; split; [by apply H1|by apply H2]).
    all: try discriminate.
    all: intros (m & [= <-] & Hge & Hlt); try (apply H1 in Hge; discriminate);
      try (apply H2 in Hlt; discriminate); done.
  - split; [discriminate|]. by intros (n & Hn & _).
Qed.

Lemma ok_importance (b : option value) :
  is_ok (validate (p_field Routes.importance) b) = true
  <-> exists r m, b = Some r /\ to_int r = Some m /\ 0 <= m.
Proof.
  destruct b as [r|]; simpl.
  - destruct (to_int r) as [m|] eqn:E; simpl.
    + unfold check, violations, violated. simpl.
      pose proof (int_ge_zero m) as H1.
      destruct (Num.geb _ _); simpl; split.
      * intros _. exists r, m. repeat split; try done. by apply H1.
      * done.
      * discriminate.
      * intros (r' & m' & [= <-] & Hm & Hge). rewrite E in Hm. injection Hm as <-.
        apply H1 in Hge. discriminate.
    + split; [discriminate|]. intros (r' & m' & [= <-] & Hm & _). congruence.
  - split; [discriminate|]. by intros (r & m & Hr & _).
Qed.

Lemma ok_size (b : option value) :
  is_ok (validate (p_field Routes.size) b) = true
  <-> exists r f, b = Some r /\ to_float r = Some f
        /\ Num.gtb (Num.NFloat f) (Num.NInt 0) = true
        /\ Num.ltb (Num.NFloat f) (Num.NFloat Num.f10_5) = true.
Proof.
  destruct b as [r|]; simpl.
  - destruct (to_float r) as [f|] eqn:E; simpl.
    + unfold check, violations, violated. simpl.
      destruct (Num.gtb _ _) eqn:E1, (Num.ltb _ _) eqn:E2; simpl; split; try done.
      * intros _. by exists r, f.
      * intros (r' & f' & [= <-] & Hf & _ & H2). congruence.
      * intros (r' & f' & [= <-] & Hf & H1 & _). congruence.
      * intros (r' & f' & [= <-] & Hf & H1 & _). congruence.
    + split; [discriminate|]. intros (r' & f' & [= <-] & Hf & _). congruence.
  - split; [discriminate|]. by intros (r & f & Hr & _).
Qed.

Lemma gather_strings (k : nat) (vs : list string) :
  gather (map (fun ir : nat * value => under (SIdx ir.1) (coerce TStr unconstrained ir.2))
              (indexed k (map VStr vs)))
  = inl (map VStr vs).
Proof.
  apply (gather_indexed_build (coerce TStr unconstrained)).
  induction vs as [|s vs IH]; constructor; [reflexivity|exact IH].
Qed.

Lemma ok_q (vs : list string) :
  is_ok (validate (p_field Routes.q) (multi (TOpt (TList TStr)) vs)) = true
  <-> (3 <= length vs <= 20)%nat.
Proof.
  unfold multi. simpl is_sequence. cbv iota.
  destruct vs as [|s0 vs0] eqn:Evs; [simpl; split; [discriminate|lia]|].
  rewrite <- Evs. clear Evs.
  change (validate (p_field Routes.q) (Some (VList (map VStr vs))))
    with (coerce (TOpt (TList TStr)) (f_cons (p_field Routes.q)) (VList (map VStr vs))).
  cbn [coerce]. rewrite gather_strings.
  unfold check, violations, violated. cbn -[Nat.leb]. rewrite length_map.
  destruct (Nat.leb_spec 3 (length vs)), (Nat.leb_spec (length vs) 20); cbn -[Nat.leb].
  all: split; intros; try done; try lia.
Qed.

End Accepts.

Lemma forall_read_item_params (P : param -> Prop) :
  Forall P (r_params Routes.read_item)
  <-> P Routes.item_id /\ P Routes.q /\ P Routes.size /\ P Routes.importance.
Proof.
  change (r_params Routes.read_item)
    with [Routes.item_id; Routes.q; Routes.size; Routes.importance].
  rewrite !Forall_cons, Forall_nil. tauto.
Qed.

(** GET /items/{item_id} binds exactly when [item_id] reads as an integer in
    [0, 10^7), [q] is given 3 to 20 times, [size] reads as a float strictly
    between 0 and 10.5, and the body reads as an integer that is not negative
    (an integer, a float without fraction, a boolean or numeric text). *)
Theorem read_item_accepts `{HT : HostText} (req : request) (seg : string) :
  method req = "GET" -> path req = ["items"; seg] -> seg <> "" ->
  matches Routes.read_item req = Some [("item_id", seg)]
  /\ ((exists a, bind (r_params Routes.read_item) [("item_id", seg)] req = inl a)
  <-> (exists n, int_of_text seg = Some n /\ 0 <= n < 10000000)
      /\ (3 <= length (values_of "q" (query req)) <= 20)%nat
      /\ (exists s f, last (values_of "size" (query req)) = Some s
            /\ to_float (VStr s) = Some f
            /\ Num.gtb (Num.NFloat f) (Num.NInt 0) = true
            /\ Num.ltb (Num.NFloat f) (Num.NFloat Num.f10_5) = true)
      /\ (exists r m, body req = Some r /\ to_int r = Some m /\ 0 <= m)).
Proof.
  intros Hm Hp Hne. split.
  { unfold matches. rewrite Hm, Hp. simpl.
    apply String.eqb_neq in Hne. by rewrite Hne. }
  rewrite bind_ok_iff, forall_read_item_params.
  set (ps := r_params Routes.read_item). set (pp := [("item_id", seg)]).
  change (validate_param ps pp req Routes.item_id)
    with (validate (p_field Routes.item_id) (Some (VStr seg))).
  change (validate_param ps pp req Routes.q)
    with (validate (p_field Routes.q)
            (multi (TOpt (TList TStr)) (values_of "q" (query req)))).
  change (validate_param ps pp req Routes.size)
    with (validate (p_field Routes.size) (VStr <$> last (values_of "size" (query req)))).
  change (validate_param ps pp req Routes.importance)
    with (validate (p_field Routes.importance) (body req)).
  rewrite ok_item_id, ok_q, ok_size, ok_importance.
  split.
  - intros (H1 & H2 & (r & f & Hr & Hf & Hg & Hl) & H4).
    split; [done|]. split; [done|]. split; [|done].
    destruct (last (values_of "size" (query req))) as [s|]; [|discriminate].
    injection Hr as <-. by exists s, f.
  - intros (H1 & H2 & (s & f & Hs & Hf & Hg & Hl) & H4).
    split; [done|]. split; [done|]. split; [|done].
    exists (VStr s), f. by rewrite Hs.
Qed.

Lemma missing_issue `{HT : HostText} (f : field) :
  f_default f = None -> Issue [] Missing VNone ∈ issues (validate f None).
Proof. intros Hd. unfold validate. rewrite Hd. simpl. apply elem_of_cons. by left. Qed.

(** POST /user/ with a body object that lacks [username] or [password] is
    rejected with a [Missing] violation that names the key; the handler does
    not run. *)
Theorem create_user_missing_field `{HT : HostText} (req : request) (w : world)
    (kvs : list (string * value)) (k : string) :
  method req = "POST" -> path req = ["user"; ""] -> body req = Some (VDict kvs) ->
  k = "username" \/ k = "password" ->
  dict_get k kvs = None ->
  exists vs,
    run Routes.create_user req w = Some (Invalid vs, [], w)
    /\ Violation LBody "user" [SKey k] Missing VNone ∈ vs.
Proof.
  intros Hm Hp Hb Hk Hget.
  assert (Hmatch : matches Routes.create_user req = Some []).
  { unfold matches. by rewrite Hm, Hp. }
  set (p := Param LBody None false (required "user" Models.UserIn)).
  assert (Hf : exists f, f ∈ model_fields Models.UserIn /\ f_name f = k /\ f_default f = None).
  { destruct Hk as [-> | ->].
    - exists (required "username" TStr). split; [|done].
      apply list_elem_of_In. vm_compute. tauto.
    - exists (required "password" TStr). split; [|done].
      apply list_elem_of_In. vm_compute. tauto. }
  destruct Hf as (f & Hin & <- & Hd).
  assert (He : Issue [SKey (f_name f)] Missing VNone
               ∈ issues (validate_param (r_params Routes.create_user) [] req p)).
  { unfold validate_param, raw_of.
    change (validate (p_field p) _)
      with (validate (required "user" Models.UserIn) (body req)).
    rewrite Hb. unfold validate.
    change (f_type (required "user" Models.UserIn))
      with (TModel "UserIn" (model_fields Models.UserIn)).
    destruct (model_field_issue "UserIn" (model_fields Models.UserIn)
                (f_cons (required "user" Models.UserIn)) kvs f (Issue [] Missing VNone) Hin)
      as (es & -> & Hes); [|exact Hes].
    rewrite Hget. by apply missing_issue. }
  assert (Hp_in : p ∈ r_params Routes.create_user) by (apply elem_of_cons; by left).
  destruct (run_rejects Routes.create_user req w [] p _ Hmatch Hp_in He)
    as (vs & Hrun & Hvs).
  exists vs. split; [exact Hrun|exact Hvs].
Qed.

(** POST /offers/ where item [i] of [items] has no [price] is rejected with a
    [Missing] violation at items / i / price. *)
Theorem offer_item_missing_price `{HT : HostText} (req : request) (w : world)
    (kvs : list (string * value)) (l : list value) (i : nat)
    (ikvs : list (string * value)) :
  method req = "POST" -> path req = ["offers"; ""] -> body req = Some (VDict kvs) ->
  dict_get "items" kvs = Some (VList l) ->
  l !! i = Some (VDict ikvs) ->
  dict_get "price" ikvs = None ->
  exists vs,
    run Routes.create_offer req w = Some (Invalid vs, [], w)
    /\ Violation LBody "offer" [SKey "items"; SIdx i; SKey "price"] Missing VNone ∈ vs.
Proof.
  intros Hm Hp Hb Hitems Hi Hprice.
  assert (Hmatch : matches Routes.create_offer req = Some []).
  { unfold matches. by rewrite Hm, Hp. }
  set (p := Param LBody None false (required "offer" Models.Offer)).
  assert (H1 : exists es, coerce Models.Item unconstrained (VDict ikvs) = inr es
                 /\ Issue [SKey "price"] Missing VNone ∈ es).
  { change Models.Item with (TModel "Item" (model_fields Models.Item)).
    apply (model_field_issue "Item" (model_fields Models.Item) unconstrained ikvs
             Models.Item_price (Issue [] Missing VNone)).
    - apply list_elem_of_In. vm_compute. tauto.
    - change (f_name Models.Item_price) with "price". rewrite Hprice.
      by apply missing_issue. }
  destruct H1 as (es1 & Hc1 & He1).
  assert (H2 : exists es, coerce (TList Models.Item) unconstrained (VList l) = inr es
                 /\ Issue [SIdx i; SKey "price"] Missing VNone ∈ es).
  { apply (list_item_issue Models.Item unconstrained l i (VDict ikvs)
             (Issue [SKey "price"] Missing VNone) Hi). by rewrite Hc1. }
  destruct H2 as (es2 & Hc2 & He2).
  assert (He : Issue [SKey "items"; SIdx i; SKey "price"] Missing VNone
               ∈ issues (validate_param (r_params Routes.create_offer) [] req p)).
  { unfold validate_param, raw_of.
    change (validate (p_field p) _)
      with (validate (required "offer" Models.Offer) (body req)).
    rewrite Hb. unfold validate.
    change (f_type (required "offer" Models.Offer))
      with (TModel "Offer" (model_fields Models.Offer)).
    destruct (model_field_issue "Offer" (model_fields Models.Offer)
                (f_cons (required "offer" Models.Offer)) kvs
                (required "items" (TList Models.Item))
                (Issue [SIdx i; SKey "price"] Missing VNone))
      as (es & -> & Hes); [| |exact Hes].
    - apply list_elem_of_In. simpl. tauto.
    - change (f_name (required "items" (TList Models.Item))) with "items".
      rewrite Hitems. unfold validate.
      change (coerce _ _ (VList l))
        with (coerce (TList Models.Item) unconstrained (VList l)).
      by rewrite Hc2. }
  assert (Hp_in : p ∈ r_params Routes.create_offer) by (apply elem_of_cons; by left).
  destruct (run_rejects Routes.create_offer req w [] p _ Hmatch Hp_in He)
    as (vs & Hrun & Hvs).
  exists vs. split; [exact Hrun|exact Hvs].
Qed.

(** POST /login/ without the form field [user-name] is rejected for a
    missing [username], whatever else the form holds: a field sent under the
    name [username] is not read. *)
Theorem login_needs_alias `{HT : HostText} (req : request) (w : world) :
  method req = "POST" -> path req = ["login"; ""] ->
  values_of "user-name" (form req) = [] ->
  exists vs,
    run Routes.login req w = Some (Invalid vs, [], w)
    /\ Violation LForm "username" [] Missing VNone ∈ vs.
Proof.
  intros Hm Hp Hnone.
  assert (Hmatch : matches Routes.login req = Some []).
  { unfold matches. by rewrite Hm, Hp. }
  set (p := Param LForm (Some "user-name") false (required "username" TStr)).
  assert (He : Issue [] Missing VNone
               ∈ issues (validate_param (r_params Routes.login) [] req p)).
  { unfold validate_param, raw_of.
    change (validate (p_field p) _)
      with (validate (required "username" TStr)
              (form_value TStr (values_of "user-name" (form req)))).
    rewrite Hnone. apply elem_of_cons. by left. }
  assert (Hp_in : p ∈ r_params Routes.login) by (apply elem_of_cons; by left).
  destruct (run_rejects Routes.login req w [] p _ Hmatch Hp_in He) as (vs & Hrun & Hvs).
  exists vs. split; [exact Hrun|exact Hvs].
Qed.


(** ** The embedded body of update_item *)

Lemma bind_id_and_embedded `{HT : HostText} (t : ftype) (req : request)
    (seg : string) (n : Z) (kvs : list (string * value)) (raw inst : value) :
  int_of_text seg = Some n -> body req = Some (VDict kvs) ->
  dict_get "item" kvs = Some raw -> coerce t unconstrained raw = inl inst ->
  bind [path_param "item_id" TInt unconstrained;
        Param LBody None true (required "item" t)] [("item_id", seg)] req
  = inl [("item_id", VInt n); ("item", inst)].
Proof.
  intros Hn Hb Hget Hc.
  unfold bind, param_violations, validate_param, raw_of, validate, wire_name, p_name.
  cbn -[coerce]. rewrite Hb, Hget. cbn [coerce to_int]. rewrite Hn, Hc. reflexivity.
Qed.

(** PUT /items/{item_id} reads the item from the key [item] of the body
    object and echoes the id with the item's JSON form; a body without that
    key, such as the bare item, is rejected for a missing [item]. *)
Theorem update_item_embed `{HT : HostText} (req : request) (w : world)
    (seg : string) (n : Z) (kvs : list (string * value)) :
  method req = "PUT" -> path req = ["items"; seg] -> seg <> "" ->
  int_of_text seg = Some n -> body req = Some (VDict kvs) ->
  (forall raw inst,
     dict_get "item" kvs = Some raw ->
     coerce Models.Item unconstrained raw = inl inst ->
     run MoreRoutes.update_item req w
     = Some (Success (VDict [ ("item_id", VInt n); ("item", jsonable inst) ]), [], w))
  /\ (dict_get "item" kvs = None ->
      exists vs,
        run MoreRoutes.update_item req w = Some (Invalid vs, [], w)
        /\ Violation LBody "item" [] Missing VNone ∈ vs).
Proof.
  intros Hm Hp Hne Hn Hb.
  assert (Hmatch : matches MoreRoutes.update_item req = Some [("item_id", seg)]).
  { unfold matches. rewrite Hm, Hp. simpl.
    apply String.eqb_neq in Hne. by rewrite Hne. }
  split.
  - intros raw inst Hget Hc.
    pose proof (bind_id_and_embedded Models.Item req seg n kvs raw inst Hn Hb Hget Hc) as Hbind.
    rewrite (run_bound MoreRoutes.update_item req w _ Hmatch _ Hbind). reflexivity.
  - intros Hget.
    set (p := Param LBody None true (required "item" Models.Item)).
    assert (He : Issue [] Missing VNone
                 ∈ issues (validate_param (r_params MoreRoutes.update_item)
                             [("item_id", seg)] req p)).
    { unfold validate_param, raw_of.
      change (validate (p_field p) _)
        with (validate (required "item" Models.Item)
                match body req with
                | Some (VDict kvs) => dict_get "item" kvs
                | _ => None
                end).
      rewrite Hb, Hget. apply elem_of_cons. by left. }
    assert (Hp_in : p ∈ r_params MoreRoutes.update_item).
    { apply elem_of_cons. right. apply elem_of_cons. by left. }
    destruct (run_rejects MoreRoutes.update_item req w _ p _ Hmatch Hp_in He)
      as (vs & Hrun & Hvs).
    exists vs. split; [exact Hrun|exact Hvs].
Qed.

(** ** Tags are a set *)

Lemma jsonable_zip (ks : list string) (vs : list value) :
  map (fun kv : string * value => (kv.1, jsonable kv.2)) (zip ks vs)
  = zip ks (map jsonable vs).
Proof.
  revert vs. induction ks as [|k ks IH]; intros [|v vs]; simpl; try done. by rewrite IH.
Qed.

(** An [Item] given a list of strings as [tags] serializes them without
    duplicates and with exactly the members of the list. *)
Theorem item_tags_are_a_set `{HT : HostText} (kvs : list (string * value))
    (inst : value) (l : list string) :
  coerce Models.Item unconstrained (VDict kvs) = inl inst ->
  dict_get "tags" kvs = Some (VList (map VStr l)) ->
  exists out ss,
    jsonable inst = VDict out
    /\ dict_get "tags" out = Some (VList (map VStr ss))
    /\ NoDup ss /\ (forall x, x ∈ ss <-> x ∈ l).
Proof.
  intros Hc Htags.
  change Models.Item with (TModel "Item" (model_fields Models.Item)) in Hc.
  rewrite coerce_model in Hc.
  destruct (gather _) as [vs|] eqn:G; [|discriminate]. injection Hc as <-.
  pose proof (gather_length _ _ G) as Hlen.
  apply gather_inl in G.
  set (tags := optional "tags" TStrSet).
  assert (Hf : model_fields Models.Item !! 5%nat = Some tags) by reflexivity.
  assert (Hv : vs !! 5%nat = Some (VSet (list_to_set l))).
  { apply (f_equal (fun rs => rs !! 5%nat)) in G.
    unfold validate_fields in G. rewrite !list_lookup_fmap, Hf in G.
    assert (E : under (SKey "tags") (validate tags (Some (VList (map VStr l))))
                = inl (VSet (list_to_set l))).
    { unfold validate, tags, optional. cbn [f_type f_cons coerce].
      rewrite mapM_as_str. reflexivity. }
    change (_ <$> Some tags)
      with (Some (under (SKey "tags") (validate tags (dict_get "tags" kvs)))) in G.
    rewrite Htags, E in G.
    destruct (vs !! 5%nat); simpl in G; congruence. }
  exists (map (fun kv : string * value => (kv.1, jsonable kv.2))
            (zip (field_names (model_fields Models.Item)) vs)),
         (elements (list_to_set l : gset string)).
  split; [|split; [|split]].
  - reflexivity.
  - rewrite jsonable_zip. apply (dict_get_zip _ _ 5%nat).
    + by apply (bool_decide_unpack _).
    + reflexivity.
    + by rewrite list_lookup_fmap, Hv.
  - apply NoDup_elements.
  - intros x. by rewrite elem_of_elements, elem_of_list_to_set.
Qed.

(** ** Instances *)

Lemma unicorn_yolo_only_witness :
  run (HT:=Decimal.text) MoreRoutes.read_unicorn MoreSample.yolo Sample.w0
  = Some (Mapped 418 []
            (VDict [ ("message",
                      VStr "Oops! yolo did something. There goes a rainbow...") ]),
          [], Sample.w0)
  /\ run (HT:=Decimal.text) MoreRoutes.read_unicorn MoreSample.rick Sample.w0
     = Some (Success (VDict [ ("unicorn_name", VStr "rick") ]), [], Sample.w0).
Proof.
  split.
  - destruct (unicorn_yolo_only (HT:=Decimal.text) MoreSample.yolo Sample.w0 "yolo"
                eq_refl eq_refl ltac:(discriminate)) as (H & _). by apply H.
  - destruct (unicorn_yolo_only (HT:=Decimal.text) MoreSample.rick Sample.w0 "rick"
                eq_refl eq_refl ltac:(discriminate)) as (_ & H & _).
    apply H. discriminate.
Defined.

Lemma update_item_embed_witness :
  (exists inst,
     run (HT:=Decimal.text) MoreRoutes.update_item MoreSample.put_wrapped Sample.w0
     = Some (Success (VDict [ ("item_id", VInt 7); ("item", jsonable inst) ]),
             [], Sample.w0))
  /\ (exists vs,
        run (HT:=Decimal.text) MoreRoutes.update_item MoreSample.put_bare Sample.w0
        = Some (Invalid vs, [], Sample.w0)
        /\ Violation LBody "item" [] Missing VNone ∈ vs).
Proof.
  split.
  - destruct (coerce (HT:=Decimal.text) Models.Item unconstrained
                (VDict MoreSample.plumbus)) as [inst|] eqn:E;
      [|vm_compute in E; discriminate].
    exists inst.
    destruct (update_item_embed (HT:=Decimal.text) MoreSample.put_wrapped Sample.w0
                "7" 7 [ ("item", VDict MoreSample.plumbus) ]
                eq_refl eq_refl ltac:(discriminate) eq_refl eq_refl) as (H & _).
    by apply (H (VDict MoreSample.plumbus) inst).
  - destruct (update_item_embed (HT:=Decimal.text) MoreSample.put_bare Sample.w0
                "7" 7 MoreSample.plumbus
                eq_refl eq_refl ltac:(discriminate) eq_refl eq_refl) as (_ & H).
    by apply H.
Defined.

Lemma read_item_accepts_witness :
  (exists a, bind (HT:=Decimal.text) (r_params Routes.read_item) [("item_id", "5")]
               MoreSample.good_item = inl a)
  /\ (exists a, bind (HT:=Decimal.text) (r_params Routes.read_item) [("item_id", "5")]
                  MoreSample.good_item_float = inl a)
  /\ (exists a, bind (HT:=Decimal.text) (r_params Routes.read_item) [("item_id", "5")]
                  MoreSample.good_item_true = inl a).
Proof.
  assert (Hsize : exists s f,
            last (values_of "size" (query MoreSample.good_item)) = Some s
            /\ to_float (HT:=Decimal.text) (VStr s) = Some f
            /\ Num.gtb (Num.NFloat f) (Num.NInt 0) = true
            /\ Num.ltb (Num.NFloat f) (Num.NFloat Num.f10_5) = true).
  { exists "1.5", (S754_finite false 6755399441055744 (-52)).
    repeat split; vm_compute; reflexivity. }
  split; [|split].
  - destruct (read_item_accepts (HT:=Decimal.text) MoreSample.good_item "5"
                eq_refl eq_refl ltac:(discriminate)) as (_ & H).
    apply H. split; [|split; [|split]].
    + exists 5. split; [reflexivity|lia].
    + vm_compute. lia.
    + exact Hsize.
    + exists (VInt 3), 3. repeat split. lia.
  - destruct (read_item_accepts (HT:=Decimal.text) MoreSample.good_item_float "5"
                eq_refl eq_refl ltac:(discriminate)) as (_ & H).
    apply H. split; [|split; [|split]].
    + exists 5. split; [reflexivity|lia].
    + vm_compute. lia.
    + exact Hsize.
    + exists (VFloat (Num.float_of_Z 3)), 3.
      split; [reflexivity|]. split; [vm_compute; reflexivity|lia].
  - destruct (read_item_accepts (HT:=Decimal.text) MoreSample.good_item_true "5"
                eq_refl eq_refl ltac:(discriminate)) as (_ & H).
    apply H. split; [|split; [|split]].
    + exists 5. split; [reflexivity|lia].
    + vm_compute. lia.
    + exact Hsize.
    + exists (VBool true), 1. repeat split. lia.
Defined.

Lemma read_item_fixed_body_witness :
  exists info,
    run (HT:=Decimal.text) Routes.read_item MoreSample.good_item Sample.w0
    = Some (Success portal_and_plumbus, [], World [info] "").
Proof.
  destruct (bind (HT:=Decimal.text) (r_params Routes.read_item) [("item_id", "5")]
              MoreSample.good_item) as [a|] eqn:E; [|vm_compute in E; discriminate].
  eexists.
  apply (read_item_fixed_body (HT:=Decimal.text) MoreSample.good_item
           [("item_id", "5")] Sample.w0 a eq_refl E).
Defined.

Lemma create_user_missing_field_witness :
  exists vs,
    run (HT:=Decimal.text) Routes.create_user MoreSample.user_without_password Sample.w0
    = Some (Invalid vs, [], Sample.w0)
    /\ Violation LBody "user" [SKey "password"] Missing VNone ∈ vs.
Proof.
  apply (create_user_missing_field (HT:=Decimal.text) MoreSample.user_without_password
           Sample.w0 [ ("username", VStr "rick") ] "password"
           eq_refl eq_refl eq_refl (or_intror eq_refl) eq_refl).
Defined.

Lemma offer_item_missing_price_witness :
  exists vs,
    run (HT:=Decimal.text) Routes.create_offer MoreSample.offer_without_price Sample.w0
    = Some (Invalid vs, [], Sample.w0)
    /\ Violation LBody "offer" [SKey "items"; SIdx 1; SKey "price"] Missing VNone ∈ vs.
Proof.
  apply (offer_item_missing_price (HT:=Decimal.text) MoreSample.offer_without_price
           Sample.w0 _ _ 1%nat [ ("name", VStr "Portal Gun") ]
           eq_refl eq_refl eq_refl eq_refl eq_refl eq_refl).
Defined.

Lemma login_needs_alias_witness :
  exists vs,
    run (HT:=Decimal.text) Routes.login MoreSample.login_unaliased Sample.w0
    = Some (Invalid vs, [], Sample.w0)
    /\ Violation LForm "username" [] Missing VNone ∈ vs.
Proof.
  apply (login_needs_alias (HT:=Decimal.text) MoreSample.login_unaliased Sample.w0
           eq_refl eq_refl eq_refl).
Defined.

Lemma item_tags_are_a_set_witness :
  exists out ss,
    dict_get "tags" out = Some (VList (map VStr ss))
    /\ NoDup ss /\ (forall x, x ∈ ss <-> x ∈ ["b"; "a"; "b"]).
Proof.
  destruct (coerce (HT:=Decimal.text) Models.Item unconstrained
              (VDict MoreSample.plumbus)) as [inst|] eqn:E;
    [|vm_compute in E; discriminate].
  destruct (item_tags_are_a_set (HT:=Decimal.text) MoreSample.plumbus inst
              ["b"; "a"; "b"] E eq_refl) as (out & ss & _ & H).
  by exists out, ss.
Defined.

Lemma notify_without_query_witness :
  serve (HT:=Decimal.text) Routes.send_notification MoreSample.notify_plain Sample.w0
  = Some (Success sent, World [] ("" ++ ("message to a@b.c" ++ nl))).
Proof.
  apply (notify_without_query (HT:=Decimal.text) MoreSample.notify_plain Sample.w0
           "a@b.c" eq_refl eq_refl ltac:(discriminate) (or_introl eq_refl)).
Defined.

Lemma routes_disjoint_witness :
  matches Routes.read_item_travel MoreSample.good_item = None
  /\ matches MoreRoutes.update_item MoreSample.good_item = None.
Proof.
  split.
  - apply (routes_disjoint 1 2 Routes.read_item
             Routes.read_item_travel MoreSample.good_item eq_refl eq_refl
             ltac:(discriminate)).
    by eexists.
  - apply (routes_disjoint 1 0 Routes.read_item
             MoreRoutes.update_item MoreSample.good_item eq_refl eq_refl
             ltac:(discriminate)).
    by eexists.
Defined.
